(** * 5emm2javalent: the statblock converter of [src/main.py]

    A shallow embedding of the converter (one Python module) and the
    properties of its derivation and text-synthesis functions.

    Python values are modelled as follows.
    - [int] is [Z]; [str] is [string] (the casing functions act on ASCII
      letters, other bytes are left as they are); [bool] is [bool]; a JSON
      list is a [list]; a dict built in a loop is an association list in
      insertion order.
    - A JSON object with a fixed set of keys is a [Record], and an ability
      abbreviation is a value of [ability]: a key that the converter reads is
      there.
    - A [float] is a finite binary64 number; every operation rounds to
      nearest, ties to even.
    - An exception is a value of type [error]; a function that can raise
      returns a [result], and the first exception ends the conversion.
    - The words of [num2words] and the decimal text of a float belong to the
      Python runtime: the functions that need them take them as parameters.
    - The runtime refuses some conversions, and the text functions give the
      text that is built when it does not.  CPython builds the decimal text
      of an [int] of at most 4300 digits only ([ValueError] beyond that,
      with the default [sys.get_int_max_str_digits()]); [num2words] has words
      for the numbers below 10^306 in magnitude only; [str.lower] and
      [str.title] also case the letters outside ASCII.  The predicates
      [formats], [has_words] and [ascii_only] state these limits, and a
      property that promises a text or a statblock for every input carries
      them as hypotheses. *)

From Stdlib Require Import ZArith List String Ascii Bool Lia.
From Stdlib Require Import DecimalString.
From Stdlib Require QArith Qround.
Import ListNotations.

Local Open Scope string_scope.
Local Open Scope Z_scope.

(** ** Exceptions *)

Inductive error : Type :=
| ValueError (msg : string)   (* raised by [get_action] *)
| AttributeError              (* a method the receiver does not have *)
| ZeroDivisionError
| OverflowError.              (* a float too large, or infinite at [floor] *)

Inductive result (A : Type) : Type :=
| Ok (a : A)
| Error (e : error).

Arguments Ok {A} a.
Arguments Error {A} e.

Definition bind {A B : Type} (c : result A) (k : A -> result B) : result B :=
  match c with
  | Ok a => k a
  | Error e => Error e
  end.

Notation "x <- c ;; k" := (bind c (fun x => k))
  (at level 61, c at next level, right associativity).

(** [for x in xs: out.append(f(x))] where [f] may raise. *)
Fixpoint mapM {A B : Type} (f : A -> result B) (xs : list A) : result (list B) :=
  match xs with
  | [] => Ok []
  | x :: xs' =>
      y <- f x ;;
      ys <- mapM f xs' ;;
      Ok (y :: ys)
  end.

(** ** Strings *)

(** [f"{n}"] for an [int]: its decimal text, which the runtime builds when
    [n] has at most 4300 digits (see [formats] below). *)
Definition str_int (n : Z) : string := NilZero.string_of_int (Z.to_int n).

(** [f"{n:+}"] for an [int]: the sign is always written. *)
Definition str_signed (n : Z) : string :=
  if n <? 0 then str_int n else "+" ++ str_int n.

(** [sep.join(parts)]. *)
Definition join (sep : string) (parts : list string) : string :=
  String.concat sep parts.

Definition is_upper (c : ascii) : bool :=
  let n := nat_of_ascii c in (65 <=? n)%nat && (n <=? 90)%nat.

Definition is_lower (c : ascii) : bool :=
  let n := nat_of_ascii c in (97 <=? n)%nat && (n <=? 122)%nat.

Definition to_upper (c : ascii) : ascii :=
  if is_lower c then ascii_of_nat (nat_of_ascii c - 32) else c.

Definition to_lower (c : ascii) : ascii :=
  if is_upper c then ascii_of_nat (nat_of_ascii c + 32) else c.

(** [s.lower()], on a text whose letters are ASCII (see [ascii_only]). *)
Fixpoint lower (s : string) : string :=
  match s with
  | EmptyString => EmptyString
  | String c s' => String (to_lower c) (lower s')
  end.

(** [s.title()], on a text whose letters are ASCII: a letter that follows a
    letter is lowered, any other letter is raised. *)
Fixpoint title_from (previous_is_cased : bool) (s : string) : string :=
  match s with
  | EmptyString => EmptyString
  | String c s' =>
      String (if previous_is_cased then to_lower c else to_upper c)
             (title_from (is_upper c || is_lower c) s')
  end.

Definition title (s : string) : string := title_from false s.

(** [s.replace(old, new)]: every occurrence of [old], left to right, without
    overlap.  [skip] counts the characters of a match still to be dropped. *)
Fixpoint replace_from (skip : nat) (old new s : string) : string :=
  match s with
  | EmptyString => EmptyString
  | String c s' =>
      match skip with
      | S k => replace_from k old new s'
      | O =>
          if String.prefix old s
          then new ++ replace_from (String.length old - 1) old new s'
          else String c (replace_from O old new s')
      end
  end.

Definition replace (old new s : string) : string :=
  match old with
  | EmptyString => s   (* no tag of the converter is empty *)
  | _ => replace_from O old new s
  end.

(** Truth value of a [str] and of an [int]. *)
Definition nonempty (s : string) : bool :=
  match s with EmptyString => false | _ => true end.

Definition nonzero (n : Z) : bool := negb (n =? 0).

(** ** Floats

    A finite binary64 number: sign, magnitude and binary exponent, of value
    [(-1)^negative * mantissa * 2^exponent].  Overflow is reported at once as
    [OverflowError]: an [int] too large for a float raises it on conversion
    and on division, and an infinite product or sum raises it at the [floor]
    that every such value of the converter goes through. *)

Record float : Type := Float { negative : bool; mantissa : Z; exponent : Z }.

(** Rounding of [a * 2^e] ([a >= 0], and a little more when [sticky]) to 53
    significant bits, with exponent at least -1074: nearest, ties to even. *)
Definition round (neg : bool) (a e : Z) (sticky : bool) : result float :=
  let drop := Z.max (Z.log2 a - 52) (-1074 - e) in
  let a' :=
    if drop <=? 0 then a
    else
      let hi := a / 2 ^ drop in
      let lo := a mod 2 ^ drop in
      let half := 2 ^ (drop - 1) in
      let up := (half <? lo) || ((lo =? half) && (sticky || Z.odd hi)) in
      if up then hi + 1 else hi in
  let e' := if drop <=? 0 then e else e + drop in
  if (0 <? a') && (1024 <=? Z.log2 a' + e') then Error OverflowError
  else Ok (Float neg a' e').

(** Conversion of an [int] operand of a float operation. *)
Definition float_of_int (n : Z) : result float :=
  round (n <? 0) (Z.abs n) 0 false.

(** [a / b] on two [int]s: the correctly rounded quotient.  The quotient is
    taken with at least 55 bits, the remainder is the sticky bit. *)
Definition truediv (a b : Z) : result float :=
  if b =? 0 then Error ZeroDivisionError
  else
    let neg := xorb (a <? 0) (b <? 0) in
    if a =? 0 then Ok (Float neg 0 0)
    else
      let p := Z.abs a in
      let q := Z.abs b in
      let k := 55 + Z.log2 q - Z.log2 p in
      let num := if 0 <=? k then p * 2 ^ k else p in
      let den := if 0 <=? k then q else q * 2 ^ (- k) in
      round neg (num / den) (- k) (negb (num mod den =? 0)).

Definition signed (x : float) : Z :=
  if negative x then - mantissa x else mantissa x.

Definition fmul (x y : float) : result float :=
  round (xorb (negative x) (negative y))
        (mantissa x * mantissa y) (exponent x + exponent y) false.

Definition fadd (x y : float) : result float :=
  let e := Z.min (exponent x) (exponent y) in
  let s := signed x * 2 ^ (exponent x - e) + signed y * 2 ^ (exponent y - e) in
  round (if s =? 0 then negative x && negative y else s <? 0) (Z.abs s) e false.

(** [math.floor(x)]. *)
Definition floor (x : float) : Z :=
  if 0 <=? exponent x then signed x * 2 ^ exponent x
  else signed x / 2 ^ (- exponent x).

(** [x * n] and [n * x], [x + n]: the [int] is converted first. *)
Definition fmul_int (x : float) (n : Z) : result float :=
  y <- float_of_int n ;; fmul x y.

Definition fadd_int (x : float) (n : Z) : result float :=
  y <- float_of_int n ;; fadd x y.

(** ** The input record (5emm JSON) *)

Inductive ability : Type := STR | DEX | CON | INT | WIS | CHA.

(** A modifier specification: [{"override", "overrideValue", "stat"}]. *)
Record Modifier : Type := {
  override : bool;
  overrideValue : Z;
  stat : ability
}.

Record Range : Type := { standard : Z; long : Z; reach : Z }.

Record Damage : Type := {
  dmg_count : Z;
  dmg_dice : Z;
  dmg_type : string;
  dmg_modifier : Modifier
}.

Record AlternateDamage : Type := {
  alt_active : bool;
  alt_count : Z;
  alt_dice : Z;
  alt_type : string;
  alt_modifier : Modifier;
  alt_condition : string
}.

Record AdditionalDamage : Type := {
  add_count : Z;
  add_dice : Z;
  add_type : string
}.

Record LimitedUse : Type := { lu_count : Z; lu_rate : string }.

Record Attack : Type := {
  atk_id : string;
  atk_name : string;
  atk_kind : string;
  atk_distance : string;
  atk_modifier : Modifier;
  atk_range : Range;
  atk_targets : Z;
  atk_damage : Damage;
  atk_alternateDamage : AlternateDamage;
  atk_additionalDamage : list AdditionalDamage;
  atk_description : string;
  atk_legendaryOnly : bool
}.

(** An entry of ["actions"] or of ["reactions"]; ["limitedUse"] is read with
    [.get], so it may be absent. *)
Record Action : Type := {
  act_id : string;
  act_name : string;
  act_description : string;
  act_limitedUse : option LimitedUse;
  act_legendaryOnly : bool;
  act_bonusAction : bool
}.

Record Trait : Type := {
  trait_name : string;
  trait_description : string;
  trait_limitedUse : LimitedUse
}.

Record Multiattack : Type := {
  ma_attacks : list string;
  ma_actions : list string
}.

Record LegendaryRef : Type := { actionId : string; cost : Z }.

Record Save : Type := {
  save_proficient : bool;
  save_override : bool;
  save_overrideValue : Z
}.

Record Skill : Type := {
  skill_label : string;
  skill_stat : ability;
  skill_proficient : bool;
  skill_expertise : bool;
  skill_override : bool;
  skill_overrideValue : Z
}.

Record Speed : Type := { speed_type : string; speed_speed : Z; speed_note : string }.

Record HitDice : Type := { HD : Z; hd_type : Z }.

Record Monster : Type := {
  name : string;
  size : string;
  type : string;
  alignment : string;
  languages : string;
  AC : Z;
  CR : string;                       (* copied as it is *)
  proficiency : Z;
  useArticleInToken : bool;
  stats : ability -> Z;
  saves : ability -> Save;
  skills : list Skill;
  HP : HitDice;
  speeds : list Speed;
  senses : list (string * Z);        (* in the order of the JSON object *)
  vulnerabilities : list string;
  resistances : list string;
  immunities : list string;
  conditions : list string;
  traits : list Trait;
  attacks : list Attack;
  actions : list Action;
  reactions : list Action;
  multiattacks : list Multiattack;
  legendaryActions : list LegendaryRef
}.

(** ** The output record (Fantasy Statblock YAML) *)

Record Entry : Type := { entry_name : string; entry_desc : string }.

Record Statblock : Type := {
  out_layout : string;
  out_dice : bool;
  out_name : string;
  out_size : string;
  out_type : string;
  out_alignment : string;
  out_languages : string;
  out_ac : Z;
  out_cr : string;
  out_damage_vulnerabilities : string;
  out_damage_resistances : string;
  out_damage_immunities : string;
  out_condition_immunities : string;
  out_speed : string;
  out_abilities : list Z;
  out_hp : Z;
  out_hit_dice : string;
  out_skillsaves : list (string * Z);
  out_senses : string;
  out_traits : list Entry;
  out_actions : list Entry;
  out_reactions : list Entry;
  out_bonus_actions : list Entry;
  out_legendary_actions : list Entry
}.

(** ** Derivation *)

(** The dict [ABILITIES], in its order: abbreviation and full name. *)
Definition ABILITIES : list (ability * string) :=
  [(STR, "strength"); (DEX, "dexterity"); (CON, "constitution");
   (INT, "intelligence"); (WIS, "wisdom"); (CHA, "charisma")].

Definition abbr (a : ability) : string :=
  match a with
  | STR => "STR" | DEX => "DEX" | CON => "CON"
  | INT => "INT" | WIS => "WIS" | CHA => "CHA"
  end.

Definition calc_modifier (score : Z) : Z := (score - 10) / 2.

Definition dice_avg (dice_type : Z) : result float := truediv (dice_type + 1) 2.

Definition calc_dice (count dice_type : Z) : result Z :=
  avg <- dice_avg dice_type ;;
  c <- float_of_int count ;;
  x <- fmul c avg ;;
  Ok (floor x).

Definition damage_str (count dice_type modifier : Z) (damage_type : string)
  : result string :=
  d <- calc_dice count dice_type ;;
  Ok (str_int (d + modifier) ++ " "
      ++ "(" ++ str_int count ++ "d" ++ str_int dice_type ++ str_signed modifier ++ ") "
      ++ damage_type ++ " damage").

(** The bonus of a modifier specification (inlined three times in
    [process_attacks]). *)
Definition resolve_modifier (json_stats : Monster) (m : Modifier) : Z :=
  if override m then overrideValue m
  else calc_modifier (stats json_stats (stat m)).

(** ** Lookup by id *)

(** What [get_action] returns: the dict of an attack or of an action. *)
Inductive Item : Type :=
| AttackItem (a : Attack)
| ActionItem (a : Action).

Definition item_name (i : Item) : string :=
  match i with
  | AttackItem a => atk_name a
  | ActionItem a => act_name a
  end.

Definition item_description (i : Item) : string :=
  match i with
  | AttackItem a => atk_description a
  | ActionItem a => act_description a
  end.

(** [item.get("limitedUse")]: an attack has no such key. *)
Definition item_limitedUse (i : Item) : option LimitedUse :=
  match i with
  | AttackItem _ => None
  | ActionItem a => act_limitedUse a
  end.

Definition item_legendaryOnly (i : Item) : bool :=
  match i with
  | AttackItem a => atk_legendaryOnly a
  | ActionItem a => act_legendaryOnly a
  end.

Definition not_found (id_ : string) : error :=
  ValueError ("Attack with ID " ++ id_ ++ " not found").

Definition get_action (id_ : string) (json_stats : Monster) : result Item :=
  match find (fun attack => String.eqb (atk_id attack) id_) (attacks json_stats) with
  | Some attack => Ok (AttackItem attack)
  | None =>
      match find (fun action => String.eqb (act_id action) id_) (actions json_stats) with
      | Some action => Ok (ActionItem action)
      | None => Error (not_found id_)
      end
  end.

(** ** Multiattack *)

(** [Counter(ids).items()]: each id with its number of occurrences, in the
    order in which the ids are first seen. *)
Fixpoint counter_add (id_ : string) (c : list (string * Z)) : list (string * Z) :=
  match c with
  | [] => [(id_, 1)]
  | (k, n) :: c' =>
      if String.eqb k id_ then (k, n + 1) :: c' else (k, n) :: counter_add id_ c'
  end.

Definition Counter (ids : list string) : list (string * Z) :=
  fold_left (fun c id_ => counter_add id_ c) ids [].

(** [enumerate(items)]. *)
Fixpoint enumerate_from {A : Type} (i : Z) (xs : list A) : list (Z * A) :=
  match xs with
  | [] => []
  | x :: xs' => (i, x) :: enumerate_from (i + 1) xs'
  end.

Definition len {A : Type} (xs : list A) : Z := Z.of_nat (List.length xs).

Definition truthy {A : Type} (xs : list A) : bool :=
  match xs with [] => false | _ => true end.

(** ** Description tags *)

Definition process_description (description : string) (json_stats : Monster) : string :=
  let prof_bonus := proficiency json_stats in
  let description :=
    fold_left
      (fun description ability =>
         let bonus := calc_modifier (stats json_stats ability) + prof_bonus in
         replace ("{A:" ++ abbr ability ++ "}") (str_signed bonus)
           (replace ("{DC:" ++ abbr ability ++ "}") ("DC " ++ str_int (8 + bonus))
              description))
      (map fst ABILITIES) description in
  let name_str := name json_stats in
  let name_str :=
    if useArticleInToken json_stats then "the " ++ name_str else name_str in
  let description :=
    replace "{NAME}" name_str (replace "{monster.name}" name_str description) in
  let description :=
    replace "{monster.proficiency}" (str_int prof_bonus) description in
  let description := replace "{monster.AC}" (str_int (AC json_stats)) description in
  let dice_count := HD (HP json_stats) in
  let hp_bonus := calc_modifier (stats json_stats CON) * dice_count in
  replace "{monster.hp}"
    (str_int dice_count ++ "d" ++ str_int (hd_type (HP json_stats)) ++ str_signed hp_bonus)
    description.

(** ** Actions, bonus actions and reactions *)

Definition process_action (action : Item) (json_stats : Monster) : Entry :=
  let name := item_name action in
  let name :=
    match item_limitedUse action with
    | Some limited_use =>
        if nonzero (lu_count limited_use)
        then name ++ " (" ++ str_int (lu_count limited_use) ++ "/day)"
        else name
    | None => name
    end in
  {| entry_name := name;
     entry_desc := process_description (item_description action) json_stats |}.

(** ** Speeds *)

Definition speed_str (speed : Speed) : string :=
  let type_ := speed_type speed in
  let distance := speed_speed speed in
  let string :=
    if String.eqb type_ "walk" then str_int distance ++ " ft."
    else type_ ++ " " ++ str_int distance ++ " ft." in
  if nonempty (speed_note speed) then string ++ " (" ++ speed_note speed ++ ")"
  else string.

Definition process_speed (json_stats : Monster) : string :=
  join ", " (map speed_str (speeds json_stats)).

(** ** Legendary actions *)

(** The entry that one turn of the loop of [process_legendary_actions]
    leaves in its variable [action]. *)
Definition legendary_entry (json_stats : Monster) (action_info : LegendaryRef)
  : result Entry :=
  action <- get_action (actionId action_info) json_stats ;;
  let action :=
    if item_legendaryOnly action then process_action action json_stats
    else {| entry_name := item_name action;
            entry_desc := "The " ++ name json_stats ++ " uses its "
                          ++ item_name action ++ " action." |} in
  let cost := cost action_info in
  Ok (if negb (cost =? 1)
      then {| entry_name := entry_name action ++ " (Costs " ++ str_int cost ++ " Actions)";
              entry_desc := entry_desc action |}
      else action).

(** The loop builds each entry and appends none of them to [actions]. *)
Definition process_legendary_actions (json_stats : Monster) : result (list Entry) :=
  let actions : list Entry := [] in
  _ <- mapM (legendary_entry json_stats) (legendaryActions json_stats) ;;
  Ok actions.

(** ** Text that needs the Python runtime

    [num2words] is the integer-to-words converter of the [num2words] package
    and [float_str] is the decimal text that an f-string gives a float; both
    are taken as they come. *)

Section Converter.

Variable num2words : Z -> string.
Variable float_str : float -> string.

(** *** Multiattack *)

(** One turn of the loop over the collated attacks. *)
Definition attack_phrase (json_stats : Monster) (n_items : Z)
    (item : Z * (string * Z)) : result string :=
  let '(index, (id_, count)) := item in
  found <- get_action id_ json_stats ;;
  let name := item_name found in
  let text := "" in
  let text :=
    if (index =? n_items - 1) && (1 <? n_items) then text ++ "and " else text in
  let text := text ++ num2words count ++ " " ++ name ++ " attack" in
  let text := if 1 <? count then text ++ "s" else text in
  Ok text.

(** One turn of the loop over the collated actions. *)
Definition action_phrase (json_stats : Monster) (item : string * Z) : result string :=
  let '(id_, count) := item in
  found <- get_action id_ json_stats ;;
  Ok (num2words count ++ " " ++ item_name found).

(** The phrase of one multiattack group.  The phrases of the actions are
    appended to [attacks]; [actions] stays empty. *)
Definition multiattack_phrase (json_stats : Monster) (ma : Multiattack)
  : result string :=
  let items := Counter (ma_attacks ma) in
  attacks <- mapM (attack_phrase json_stats (len items)) (enumerate_from 0 items) ;;
  let collated_actions := Counter (ma_actions ma) in
  let actions : list string := [] in
  appended <- mapM (action_phrase json_stats) collated_actions ;;
  let attacks := (attacks ++ appended)%list in
  Ok (if truthy actions
      then (if truthy attacks
            then "uses " ++ join ", " actions ++ " followed by " ++ join ", " attacks
            else "")
      else "makes " ++ join ", " attacks).

Definition process_multiattack (json_stats : Monster) : result string :=
  rendered_ma <- mapM (multiattack_phrase json_stats) (multiattacks json_stats) ;;
  Ok (name json_stats ++ " " ++ join " or " rendered_ma ++ ".").

(** *** Attacks *)

Definition distance_in (d : string) (ds : list string) : bool :=
  existsb (String.eqb d) ds.

(** The text that [process_attacks] collects in [attack_str]. *)
Definition attack_line (json_stats : Monster) (attack : Attack) : result string :=
  let attack_str := "" in
  let distance := atk_distance attack in
  let distance := if String.eqb distance "BOTH" then "Melee or Ranged" else distance in
  let attack_str :=
    attack_str ++ title (distance ++ " " ++ atk_kind attack ++ " Attack: ") in
  let modifier := resolve_modifier json_stats (atk_modifier attack) in
  let attack_str := attack_str ++ str_signed modifier ++ " to hit, " in
  let reach :=
    if distance_in (atk_distance attack) ["BOTH"; "MELEE"]
    then "reach " ++ str_int (reach (atk_range attack)) ++ " ft."
    else "" in
  range_ <-
    (if distance_in (atk_distance attack) ["BOTH"; "RANGED"]
     then q <- truediv (standard (atk_range attack)) (long (atk_range attack)) ;;
          Ok ("range " ++ float_str q ++ " ft.")
     else Ok "") ;;
  let attack_str :=
    attack_str ++ join " or " (filter nonempty [reach; range_]) ++ ", " in
  let targets := atk_targets attack in
  Ok (attack_str ++ num2words targets ++ " target"
      ++ (if 1 <? targets then "s" else "") ++ ". ").

(** One turn of the loop over the additional damages, [i] counted from 1. *)
Definition additional_phrase (n : Z) (item : Z * AdditionalDamage) : result string :=
  let '(i, damage) := item in
  d <- damage_str (add_count damage) (add_dice damage) 0 (add_type damage) ;;
  Ok (if i =? n - 1 then d ++ ", and "
      else if i <? n then d ++ ", "
      else d).

(** The text that [process_attacks] collects in [description]. *)
Definition attack_description (json_stats : Monster) (attack : Attack)
  : result string :=
  let description := "Hit: " in
  let modifier := resolve_modifier json_stats (dmg_modifier (atk_damage attack)) in
  d <- damage_str (dmg_count (atk_damage attack)) (dmg_dice (atk_damage attack))
                  modifier (dmg_type (atk_damage attack)) ;;
  let description := description ++ d in
  let alternate_damage := atk_alternateDamage attack in
  description <-
    (if alt_active alternate_damage
     then
       let description := description ++ ", or " in
       let modifier := resolve_modifier json_stats (alt_modifier alternate_damage) in
       d <- damage_str (alt_count alternate_damage) (alt_dice alternate_damage)
                       modifier (dmg_type (atk_damage attack)) ;;
       Ok (description ++ d ++ " " ++ alt_condition alternate_damage)
     else Ok description) ;;
  let additional_damages := atk_additionalDamage attack in
  description <-
    (if truthy additional_damages
     then
       parts <- mapM (additional_phrase (len additional_damages))
                     (enumerate_from 1 additional_damages) ;;
       Ok (description ++ " plus " ++ String.concat "" parts)
     else Ok description) ;;
  let description := description ++ "." in
  Ok (if nonempty (atk_description attack)
      then description ++ " " ++ atk_description attack
      else description).

(** One turn of the loop of [process_attacks]: [attack_str] is built and
    never read. *)
Definition attack_entry (json_stats : Monster) (attack : Attack) : result Entry :=
  attack_str <- attack_line json_stats attack ;;
  description <- attack_description json_stats attack ;;
  Ok {| entry_name := atk_name attack;
        entry_desc := process_description description json_stats |}.

Definition process_attacks (json_stats : Monster) : result (list Entry) :=
  mapM (attack_entry json_stats) (attacks json_stats).

(** *** The statblock *)

(** [d[k] = v] and [d.get(k)] on a dict kept in insertion order. *)
Fixpoint dict_set (k : string) (v : Z) (d : list (string * Z)) : list (string * Z) :=
  match d with
  | [] => [(k, v)]
  | (k', v') :: d' =>
      if String.eqb k' k then (k', v) :: d' else (k', v') :: dict_set k v d'
  end.

Fixpoint dict_get (k : string) (d : list (string * Z)) : option Z :=
  match d with
  | [] => None
  | (k', v') :: d' => if String.eqb k' k then Some v' else dict_get k d'
  end.

(** The hit points, on floats as [parse_stats] computes them. *)
Definition hit_points (json_stats : Monster) : result Z :=
  let abilities := stats json_stats in
  let hp_info := HP json_stats in
  let num_dice := HD hp_info in
  let dice_type := hd_type hp_info in
  avg <- dice_avg dice_type ;;
  dice <- fmul_int avg num_dice ;;
  total <- fadd_int dice (calc_modifier (abilities CON) * num_dice) ;;
  Ok (floor total).

(** The dict [saves]; [parse_stats] fills it and stores it nowhere. *)
Definition saving_throws (json_stats : Monster) : list (string * Z) :=
  let json_saves := saves json_stats in
  fold_left
    (fun saves item =>
       let '(abbr, stat) := item in
       let json_save := json_saves abbr in
       if save_override json_save
       then dict_set stat (save_overrideValue json_save) saves
       else if save_proficient json_save
       then dict_set stat
              (calc_modifier (stats json_stats abbr) + proficiency json_stats) saves
       else saves)
    ABILITIES [].

Definition skill_bonuses (json_stats : Monster) : list (string * Z) :=
  let proficiency_bonus := proficiency json_stats in
  let json_skills := skills json_stats in
  fold_left
    (fun skills json_skill =>
       let name := lower (skill_label json_skill) in
       if skill_override json_skill
       then dict_set name (skill_overrideValue json_skill) skills
       else if skill_proficient json_skill
       then
         let bonus :=
           calc_modifier (stats json_stats (skill_stat json_skill)) + proficiency_bonus in
         let skills := dict_set name bonus skills in
         if skill_expertise json_skill
         then dict_set name (bonus + proficiency_bonus) skills
         else skills
       else skills)
    json_skills [].

(** The sense strings before the passive perception is appended. *)
Definition sense_strs (json_stats : Monster) : list string :=
  flat_map
    (fun sense : string * Z =>
       let distance := snd sense in
       if nonzero distance
       then [title (fst sense) ++ " " ++ str_int distance ++ " ft."]
       else [])
    (senses json_stats).

Definition passive_perception (skills : list (string * Z)) : Z :=
  let perception := 0 in
  match dict_get "perception" skills with
  | Some bonus => perception + bonus
  | None => perception
  end.

(** One turn of the loop over the traits: [str] has no [append]. *)
Definition trait_entry (json_stats : Monster) (json_trait : Trait) : result Entry :=
  let name := trait_name json_trait in
  let uses := trait_limitedUse json_trait in
  _ <- (if nonzero (lu_count uses) then Error AttributeError else Ok tt) ;;
  Ok {| entry_name := name;
        entry_desc := process_description (trait_description json_trait) json_stats |}.

Definition parse_stats (json_stats : Monster) : result Statblock :=
  let abilities := stats json_stats in
  let json_actions := actions json_stats in
  let num_dice := HD (HP json_stats) in
  let dice_type := hd_type (HP json_stats) in
  hp <- hit_points json_stats ;;
  let saves := saving_throws json_stats in
  let skills := skill_bonuses json_stats in
  let passive := "Passive Perception " ++ str_int (passive_perception skills) in
  let senses := (sense_strs json_stats ++ [passive])%list in
  traits <- mapM (trait_entry json_stats) (traits json_stats) ;;
  multiattack <- process_multiattack json_stats ;;
  actions <-
    (if nonempty multiattack
     then desc <- process_multiattack json_stats ;;
          Ok [{| entry_name := "Multiattack"; entry_desc := desc |}]
     else Ok []) ;;
  attack_entries <- process_attacks json_stats ;;
  let actions := (actions ++ attack_entries)%list in
  let actions :=
    (actions
     ++ map (fun action => process_action (ActionItem action) json_stats)
            (filter (fun action =>
                       negb (act_legendaryOnly action || act_bonusAction action))
                    (json_actions)))%list in
  let reactions :=
    map (fun reaction => process_action (ActionItem reaction) json_stats)
        (reactions json_stats) in
  let bonus_actions :=
    map (fun a => process_action (ActionItem a) json_stats)
        (filter act_bonusAction (json_actions)) in
  legendary_actions <- process_legendary_actions json_stats ;;
  Ok {| out_layout := "Basic 5e Layout";
        out_dice := true;
        out_name := name json_stats;
        out_size := size json_stats;
        out_type := type json_stats;
        out_alignment := alignment json_stats;
        out_languages := languages json_stats;
        out_ac := AC json_stats;
        out_cr := CR json_stats;
        out_damage_vulnerabilities := join ", " (vulnerabilities json_stats);
        out_damage_resistances := join ", " (resistances json_stats);
        out_damage_immunities := join ", " (immunities json_stats);
        out_condition_immunities := join ", " (conditions json_stats);
        out_speed := process_speed json_stats;
        out_abilities := map abilities [STR; DEX; CON; INT; WIS; CHA];
        out_hp := hp;
        out_hit_dice := str_int num_dice ++ "d" ++ str_int dice_type;
        out_skillsaves := skills;
        out_senses := join ", " senses;
        out_traits := traits;
        out_actions := actions;
        out_reactions := reactions;
        out_bonus_actions := bonus_actions;
        out_legendary_actions := legendary_actions |}.

End Converter.

(** ** Notions of the statements *)

(** A field of the statblock, when there is one. *)
Definition fmap {A B : Type} (f : A -> B) (r : result A) : result B :=
  match r with
  | Ok a => Ok (f a)
  | Error e => Error e
  end.

(** The entries of ["actions"], given the multiattack text and the entries
    of the attacks. *)
Definition actions_of (json_stats : Monster) (ma : string) (atks : list Entry)
  : list Entry :=
  ((if nonempty ma then [{| entry_name := "Multiattack"; entry_desc := ma |}] else [])
   ++ atks
   ++ map (fun action => process_action (ActionItem action) json_stats)
          (filter (fun action =>
                     negb (act_legendaryOnly action || act_bonusAction action))
                  (actions json_stats)))%list.

(** The ids that the multiattack groups and the legendary actions refer to. *)
Definition multiattack_refs (json_stats : Monster) : list string :=
  flat_map (fun ma => ma_attacks ma ++ ma_actions ma)%list (multiattacks json_stats).

Definition legendary_refs (json_stats : Monster) : list string :=
  map actionId (legendaryActions json_stats).

(** No attack and no action has the id. *)
Definition unresolved (json_stats : Monster) (id_ : string) : Prop :=
  (forall attack, In attack (attacks json_stats) -> atk_id attack <> id_)
  /\ (forall action, In action (actions json_stats) -> act_id action <> id_).

(** ** The hit points of the specification

    Following the spec's words: [floor(diceAverage(dieType) * hitDiceCount)
    + abilityModifier(CON) * hitDiceCount], with [diceAverage(sides) =
    (sides + 1) / 2] a rational and [abilityModifier(score) =
    floor((score - 10) / 2)]. *)

Definition diceAverage (sides : Z) : QArith_base.Q :=
  QArith_base.Qmake (sides + 1) 2.

Definition abilityModifier (score : Z) : Z :=
  Qround.Qfloor (QArith_base.Qmake (score - 10) 2).

Definition spec_hit_points (dieType hitDiceCount con : Z) : Z :=
  Qround.Qfloor
    (QArith_base.Qmult (diceAverage dieType) (QArith_base.inject_Z hitDiceCount))
  + abilityModifier con * hitDiceCount.

(** The inputs on which every float of [hit_points] is exact: the numerators
    of the half-integers and the integers involved stay below 2^53. *)
Definition exact_range (dieType hitDiceCount con : Z) : Prop :=
  Z.abs (dieType + 1) < 2 ^ 53
  /\ Z.abs hitDiceCount < 2 ^ 53
  /\ Z.abs ((dieType + 1) * hitDiceCount) < 2 ^ 53
  /\ Z.abs (calc_modifier con * hitDiceCount) < 2 ^ 53
  /\ Z.abs ((dieType + 1) * hitDiceCount + 2 * (calc_modifier con * hitDiceCount))
     < 2 ^ 53.

(** [x] is the number [N * 2^c], and its exponent is at least [lo]. *)
Definition has_value (x : float) (N c lo : Z) : Prop :=
  lo <= exponent x
  /\ 0 <= mantissa x
  /\ signed x * 2 ^ (exponent x - lo) = N * 2 ^ (c - lo).

(** ** The passive perception of the specification

    Following the spec's words: [10 + skillBonus("perception")] if a
    perception entry exists, else [10]. *)

Definition spec_passive_perception (skills : list (string * Z)) : Z :=
  match dict_get "perception" skills with
  | Some bonus => 10 + bonus
  | None => 10
  end.

(** ** The limits of the runtime *)

(** [sys.get_int_max_str_digits()], as CPython sets it. *)
Definition int_max_str_digits : Z := 4300.

(** The number of decimal digits of [n], its sign not counted. *)
Definition digits (n : Z) : Z := Z.of_nat (String.length (str_int (Z.abs n))).

(** [f"{n}"] and [f"{n:+}"] are built: [n] has at most [int_max_str_digits]
    digits.  Beyond that the conversion raises [ValueError]. *)
Definition formats (n : Z) : bool := digits n <=? int_max_str_digits.

(** [num2words(n)] is built: [n] is below the [MAXVAL] of the English
    converter, 10^306, in magnitude.  From there on it raises. *)
Definition has_words (n : Z) : bool := Z.abs n <? 10 ^ 306.

(** A text of ASCII characters: [str.lower] and [str.title] change its
    letters A to Z and a to z and nothing else. *)
Fixpoint ascii_only (s : string) : bool :=
  match s with
  | EmptyString => true
  | String c s' => (nat_of_ascii c <? 128)%nat && ascii_only s'
  end.

(** The integers that every call of [process_description] formats, in its
    order: for each ability 8 + bonus and the bonus, then the proficiency
    bonus, the armor class, and the number of hit dice, their type and the
    hit-point bonus. *)
Definition description_ints (json_stats : Monster) : list Z :=
  let prof_bonus := proficiency json_stats in
  let dice_count := HD (HP json_stats) in
  (flat_map
     (fun ability =>
        let bonus := calc_modifier (stats json_stats ability) + prof_bonus in
        [8 + bonus; bonus])
     (map fst ABILITIES)
   ++ [prof_bonus; AC json_stats; dice_count; hd_type (HP json_stats);
       calc_modifier (stats json_stats CON) * dice_count])%list.

Definition description_formats (json_stats : Monster) : bool :=
  forallb formats (description_ints json_stats).

(** The integers that [damage_str] formats: the total, the count, the dice
    and the modifier. *)
Definition damage_formats (count dice_type modifier : Z) : bool :=
  match calc_dice count dice_type with
  | Ok dice => formats (dice + modifier)
  | Error _ => true
  end
  && formats count && formats dice_type && formats modifier.

(** What one turn of the loop of [process_attacks] formats and puts in
    words: the bonus to hit, the reach when there is a reach clause, the
    number of targets, and the damages. *)
Definition attack_formats (json_stats : Monster) (attack : Attack) : bool :=
  let primary := atk_damage attack in
  let alternate := atk_alternateDamage attack in
  formats (resolve_modifier json_stats (atk_modifier attack))
  && (if distance_in (atk_distance attack) ["BOTH"; "MELEE"]
      then formats (reach (atk_range attack)) else true)
  && has_words (atk_targets attack)
  && damage_formats (dmg_count primary) (dmg_dice primary)
                    (resolve_modifier json_stats (dmg_modifier primary))
  && (if alt_active alternate
      then damage_formats (alt_count alternate) (alt_dice alternate)
                          (resolve_modifier json_stats (alt_modifier alternate))
      else true)
  && forallb (fun damage => damage_formats (add_count damage) (add_dice damage) 0)
             (atk_additionalDamage attack).

(** The count that [process_action] formats in the name of an action. *)
Definition action_formats (action : Action) : bool :=
  match act_limitedUse action with
  | Some limited_use => formats (lu_count limited_use)
  | None => true
  end.

(** The cost that [process_legendary_actions] formats. *)
Definition cost_formats (action_info : LegendaryRef) : bool :=
  formats (cost action_info).

(** Every integer that the conversion formats or puts in words is within the
    limits of the runtime: the speeds, the distances of the senses and the
    passive perception, the integers of the descriptions, of the attacks and
    of the actions, and the costs of the legendary actions. *)
Definition within_limits (json_stats : Monster) : bool :=
  forallb (fun speed => formats (speed_speed speed)) (speeds json_stats)
  && forallb (fun sense : string * Z => formats (snd sense)) (senses json_stats)
  && formats (passive_perception (skill_bonuses json_stats))
  && description_formats json_stats
  && forallb (attack_formats json_stats) (attacks json_stats)
  && forallb action_formats (actions json_stats ++ reactions json_stats)
  && forallb cost_formats (legendaryActions json_stats).

(** ** A runtime for the examples *)

Definition small_words : list string :=
  ["zero"; "one"; "two"; "three"; "four"; "five"; "six"; "seven"; "eight";
   "nine"; "ten"; "eleven"; "twelve"; "thirteen"; "fourteen"; "fifteen";
   "sixteen"; "seventeen"; "eighteen"; "nineteen"].

Definition tens_words : list string :=
  [""; ""; "twenty"; "thirty"; "forty"; "fifty"; "sixty"; "seventy"; "eighty";
   "ninety"].

(** The English words of [num2words] for 0 to 99; the examples use no other
    number, which is left in digits here. *)
Definition num2words_en (n : Z) : string :=
  if (0 <=? n) && (n <? 20) then nth (Z.to_nat n) small_words ""
  else if (20 <=? n) && (n <? 100) then
    nth (Z.to_nat (n / 10)) tens_words ""
    ++ (if n mod 10 =? 0 then "" else "-" ++ nth (Z.to_nat (n mod 10)) small_words "")
  else str_int n.

(** [n] zeros, and a text without the zeros at its end. *)
Fixpoint zeros (n : nat) : string :=
  match n with O => "" | S n' => "0" ++ zeros n' end.

Fixpoint strip_zeros (s : string) : string :=
  match s with
  | EmptyString => EmptyString
  | String c s' =>
      match strip_zeros s' with
      | EmptyString => if Ascii.eqb c "0" then EmptyString else String c EmptyString
      | rest => String c rest
      end
  end.

(** The exact decimal expansion of a float, with at least one digit after
    the point.  It is the text Python prints for a float whose expansion has
    at most 15 significant digits and which lies between 1e-4 and 1e16 in
    magnitude, as the quotients of the examples do. *)
Definition float_str_exact (x : float) : string :=
  let m := mantissa x in
  let e := exponent x in
  let sign := if negative x then "-" else "" in
  if 0 <=? e then sign ++ str_int (m * 2 ^ e) ++ ".0"
  else
    let k := - e in
    let frac := str_int ((m mod 2 ^ k) * 5 ^ k) in
    let digits := strip_zeros (zeros (Z.to_nat k - String.length frac) ++ frac) in
    sign ++ str_int (m / 2 ^ k) ++ "."
    ++ (if nonempty digits then digits else "0").

(** ** Sample monsters *)

Definition by_stat (s : ability) : Modifier :=
  {| override := false; overrideValue := 0; stat := s |}.

Definition no_alternate : AlternateDamage :=
  {| alt_active := false; alt_count := 1; alt_dice := 4; alt_type := "";
     alt_modifier := by_stat STR; alt_condition := "" |}.

Definition weapon (id_ name distance : string) (count dice : Z)
    (damage_type : string) (alternate : AlternateDamage) : Attack :=
  {| atk_id := id_; atk_name := name; atk_kind := "WEAPON";
     atk_distance := distance; atk_modifier := by_stat STR;
     atk_range := {| standard := 80; long := 320; reach := 5 |};
     atk_targets := 1;
     atk_damage := {| dmg_count := count; dmg_dice := dice;
                      dmg_type := damage_type; dmg_modifier := by_stat STR |};
     atk_alternateDamage := alternate;
     atk_additionalDamage := [];
     atk_description := "";
     atk_legendaryOnly := false |}.

Definition bite : Attack := weapon "a1" "Bite" "MELEE" 2 6 "piercing" no_alternate.
Definition claw : Attack := weapon "a2" "Claw" "MELEE" 1 8 "slashing" no_alternate.
Definition shortbow : Attack :=
  weapon "a3" "Shortbow" "RANGED" 1 6 "piercing" no_alternate.

(** A sword whose alternate damage has a type of its own. *)
Definition flame_sword : Attack :=
  weapon "a4" "Flame Sword" "MELEE" 1 8 "slashing"
    {| alt_active := true; alt_count := 1; alt_dice := 10; alt_type := "fire";
       alt_modifier := by_stat STR; alt_condition := "if the blade is lit" |}.

Definition roar : Action :=
  {| act_id := "b1"; act_name := "Roar";
     act_description := "Each creature within 30 feet must succeed on a {DC:CHA} Wisdom saving throw.";
     act_limitedUse := None; act_legendaryOnly := false; act_bonusAction := false |}.

Definition scores (a : ability) : Z :=
  match a with
  | STR => 16 | DEX => 14 | CON => 13 | INT => 7 | WIS => 12 | CHA => 8
  end.

Definition plain_save : Save :=
  {| save_proficient := false; save_override := false; save_overrideValue := 0 |}.

Definition sample (scores : ability -> Z) (hit_dice : HitDice)
    (skills : list Skill) (traits : list Trait)
    (attacks : list Attack) (actions : list Action)
    (multiattacks : list Multiattack) (legendary : list LegendaryRef) : Monster :=
  {| name := "Drake"; size := "Large"; type := "dragon"; alignment := "unaligned";
     languages := "Draconic"; AC := 15; CR := "4"; proficiency := 2;
     useArticleInToken := true;
     stats := scores;
     saves := fun _ => plain_save;
     skills := skills;
     HP := hit_dice;
     speeds := [{| speed_type := "walk"; speed_speed := 40; speed_note := "" |};
                {| speed_type := "fly"; speed_speed := 60; speed_note := "hover" |}];
     senses := [("darkvision", 60); ("blindsight", 0)];
     vulnerabilities := []; resistances := ["fire"]; immunities := [];
     conditions := [];
     traits := traits;
     attacks := attacks;
     actions := actions;
     reactions := [];
     multiattacks := multiattacks;
     legendaryActions := legendary |}.

Definition d10x6 : HitDice := {| HD := 6; hd_type := 10 |}.

(** A drake with a bite, a claw and a roar, to which each example adds the
    part it is about. *)
Definition drake (skills : list Skill) (traits : list Trait)
    (multiattacks : list Multiattack) (legendary : list LegendaryRef) : Monster :=
  sample scores d10x6 skills traits [bite; claw; shortbow; flame_sword] [roar]
         multiattacks legendary.

Definition no_uses : LimitedUse := {| lu_count := 0; lu_rate := "" |}.

Definition keen_senses : Trait :=
  {| trait_name := "Keen Senses";
     trait_description := "{NAME} has advantage on Wisdom (Perception) checks.";
     trait_limitedUse := no_uses |}.

Definition legendary_resistance : Trait :=
  {| trait_name := "Legendary Resistance";
     trait_description := "If {NAME} fails a saving throw, it can choose to succeed instead.";
     trait_limitedUse := {| lu_count := 3; lu_rate := "DAY" |} |}.

Definition perception : Skill :=
  {| skill_label := "Perception"; skill_stat := WIS; skill_proficient := true;
     skill_expertise := false; skill_override := false; skill_overrideValue := 0 |}.

(** The inputs at which the properties are evaluated. *)

(** A legendary action that refers to the bite, at a cost of 2. *)
Definition drake_legendary : Monster :=
  drake [] [] [] [{| actionId := "a1"; cost := 2 |}].

(** A multiattack group of one bite and one roar. *)
Definition drake_bite_roar : Monster :=
  drake [] [] [{| ma_attacks := ["a1"]; ma_actions := ["b1"] |}] [].

(** No multiattack group, no skill, one trait without limited use. *)
Definition drake_plain : Monster := drake [] [keen_senses] [] [].

(** A trait that can be used three times a day. *)
Definition drake_resistant : Monster := drake [] [legendary_resistance] [] [].

(** Two bites and a claw. *)
Definition drake_two_bites : Monster :=
  drake [] [] [{| ma_attacks := ["a1"; "a1"; "a2"]; ma_actions := [] |}] [].

(** Proficient in Perception. *)
Definition drake_perceptive : Monster := drake [perception] [] [] [].

(** A hit die of six sides and a Constitution of 2^54 + 10. *)
Definition colossus : Monster :=
  sample (fun a => match a with CON => 18014398509481994 | _ => 10 end)
         {| HD := 1; hd_type := 6 |} [] [] [] [] [] [].



(** ** Notions of the further properties *)

(** The ids of a list in the order in which they are first seen, and the
    number of times an id occurs. *)
Fixpoint first_seen (ids : list string) : list string :=
  match ids with
  | [] => []
  | id_ :: rest => id_ :: filter (fun k => negb (String.eqb k id_)) (first_seen rest)
  end.

Definition occurrences (id_ : string) (ids : list string) : Z :=
  Z.of_nat (count_occ string_dec ids id_).

(** The counts of a list of ids: each id first seen, with its occurrences. *)
Definition collate (ids : list string) : list (string * Z) :=
  map (fun k => (k, occurrences k ids)) (first_seen ids).

(** A text without an opening brace. *)
Fixpoint no_brace (s : string) : bool :=
  match s with
  | EmptyString => true
  | String c s' => negb (Ascii.eqb c "{") && no_brace s'
  end.

(** [s[n:]]. *)
Fixpoint skip_chars (n : nat) (s : string) : string :=
  match n, s with
  | O, _ => s
  | S n', String _ s' => skip_chars n' s'
  | S _, EmptyString => EmptyString
  end.

(** [t] is a prefix of [s]; by recursion on [t]. *)
Fixpoint starts_with (t s : string) : bool :=
  match t with
  | EmptyString => true
  | String a t' =>
      match s with
      | EmptyString => false
      | String b s' => Ascii.eqb a b && starts_with t' s'
      end
  end.

(** The tags that [process_description] replaces, in its order, without
    their opening brace. *)
Definition TAG_BODIES : list string :=
  ["DC:STR}"; "A:STR}"; "DC:DEX}"; "A:DEX}"; "DC:CON}"; "A:CON}";
   "DC:INT}"; "A:INT}"; "DC:WIS}"; "A:WIS}"; "DC:CHA}"; "A:CHA}";
   "monster.name}"; "NAME}"; "monster.proficiency}"; "monster.AC}";
   "monster.hp}"].

(** The key of a skill in [skills], and the value that one turn of the loop
    over the skills stores under it, if any. *)
Definition skill_key (json_skill : Skill) : string := lower (skill_label json_skill).

Definition skill_value (json_stats : Monster) (json_skill : Skill) : option Z :=
  if skill_override json_skill then Some (skill_overrideValue json_skill)
  else if skill_proficient json_skill then
    Some (calc_modifier (stats json_stats (skill_stat json_skill))
          + proficiency json_stats
          + (if skill_expertise json_skill then proficiency json_stats else 0))
  else None.

(** One turn of the loop over the skills. *)
Definition skill_step (json_stats : Monster) (skills : list (string * Z))
    (json_skill : Skill) : list (string * Z) :=
  match skill_value json_stats json_skill with
  | Some v => dict_set (skill_key json_skill) v skills
  | None => skills
  end.

(** The entry of a trait without limited use, and the entry of an action. *)
Definition plain_trait_entry (json_stats : Monster) (json_trait : Trait) : Entry :=
  {| entry_name := trait_name json_trait;
     entry_desc := process_description (trait_description json_trait) json_stats |}.

Definition action_entry (json_stats : Monster) (action : Action) : Entry :=
  process_action (ActionItem action) json_stats.

(** Phrases joined by commas, with ", and " before the last one. *)
Fixpoint comma_and (phrases : list string) : string :=
  match phrases with
  | [] => ""
  | [d] => d
  | d :: ([_] as rest) => d ++ ", and " ++ comma_and rest
  | d :: rest => d ++ ", " ++ comma_and rest
  end.

(** The phrase of an additional damage: its modifier is 0. *)
Definition additional_str (damage : AdditionalDamage) : result string :=
  damage_str (add_count damage) (add_dice damage) 0 (add_type damage).

(** What the loop over the additional damages writes after the phrase
    number [i] of [n], and the phrases with it. *)
Definition separator (i n : Z) : string :=
  if i =? n - 1 then ", and " else if i <? n then ", " else "".

Fixpoint decorate (n i : Z) (phrases : list string) : list string :=
  match phrases with
  | [] => []
  | p :: rest => (p ++ separator i n) :: decorate n (i + 1) rest
  end.

(** The attack has a range clause. *)
Definition has_range_clause (attack : Attack) : bool :=
  distance_in (atk_distance attack) ["BOTH"; "RANGED"].

(** Dice whose average is computed without rounding. *)
Definition damage_in_range (count dice_type : Z) : Prop :=
  Z.abs (dice_type + 1) < 2 ^ 53
  /\ Z.abs count < 2 ^ 53
  /\ Z.abs (count * (dice_type + 1)) < 2 ^ 53.

(** An attack that [process_attacks] renders: a range clause divides by a
    long range that is not 0, and the dice are in range. *)
Definition attack_renders (attack : Attack) : Prop :=
  (has_range_clause attack = true ->
   long (atk_range attack) <> 0
   /\ Z.log2 (Z.abs (standard (atk_range attack))) <= 1021)
  /\ damage_in_range (dmg_count (atk_damage attack)) (dmg_dice (atk_damage attack))
  /\ (alt_active (atk_alternateDamage attack) = true ->
      damage_in_range (alt_count (atk_alternateDamage attack))
                      (alt_dice (atk_alternateDamage attack)))
  /\ Forall (fun damage => damage_in_range (add_count damage) (add_dice damage))
            (atk_additionalDamage attack).

(** An attack with three additional damages, and a ranged attack without
    long range. *)
Definition venom_bite : Attack :=
  {| atk_id := "a5"; atk_name := "Venom Bite"; atk_kind := "WEAPON";
     atk_distance := "MELEE"; atk_modifier := by_stat STR;
     atk_range := {| standard := 0; long := 0; reach := 5 |};
     atk_targets := 1;
     atk_damage := {| dmg_count := 1; dmg_dice := 6; dmg_type := "piercing";
                      dmg_modifier := by_stat STR |};
     atk_alternateDamage := no_alternate;
     atk_additionalDamage :=
       [{| add_count := 2; add_dice := 6; add_type := "poison" |};
        {| add_count := 1; add_dice := 4; add_type := "acid" |};
        {| add_count := 1; add_dice := 8; add_type := "fire" |}];
     atk_description := "The target is poisoned.";
     atk_legendaryOnly := false |}.

Definition sling : Attack :=
  {| atk_id := "a6"; atk_name := "Sling"; atk_kind := "WEAPON";
     atk_distance := "RANGED"; atk_modifier := by_stat DEX;
     atk_range := {| standard := 30; long := 0; reach := 0 |};
     atk_targets := 1;
     atk_damage := {| dmg_count := 1; dmg_dice := 4; dmg_type := "bludgeoning";
                      dmg_modifier := by_stat DEX |};
     atk_alternateDamage := no_alternate;
     atk_additionalDamage := [];
     atk_description := "";
     atk_legendaryOnly := false |}.

Definition drake_slinger : Monster :=
  sample scores d10x6 [] [] [bite; sling] [roar] [] [].

(** Two actions that differ in the rate of their limited use only, and a
    bonus action. *)
Definition breath (rate : string) : Action :=
  {| act_id := "b2"; act_name := "Fire Breath";
     act_description := "Each creature in a 15-foot cone takes 7 (2d6) fire damage.";
     act_limitedUse := Some {| lu_count := 2; lu_rate := rate |};
     act_legendaryOnly := false; act_bonusAction := false |}.

Definition tail_swipe : Action :=
  {| act_id := "b3"; act_name := "Tail Swipe";
     act_description := "{NAME} swings its tail.";
     act_limitedUse := None; act_legendaryOnly := true; act_bonusAction := false |}.

Definition leap : Action :=
  {| act_id := "b4"; act_name := "Leap";
     act_description := "{NAME} jumps up to 20 feet.";
     act_limitedUse := None; act_legendaryOnly := false; act_bonusAction := true |}.

Definition drake_busy : Monster :=
  sample scores d10x6 [] [keen_senses] [bite; claw]
         [roar; breath "DAY"; tail_swipe; leap] [] [].

(** Four skills: one proficient, one with expertise, one overridden and one
    that is neither. *)
Definition stealth : Skill :=
  {| skill_label := "Stealth"; skill_stat := DEX; skill_proficient := true;
     skill_expertise := true; skill_override := false; skill_overrideValue := 0 |}.

Definition athletics : Skill :=
  {| skill_label := "Athletics"; skill_stat := STR; skill_proficient := true;
     skill_expertise := false; skill_override := true; skill_overrideValue := 9 |}.

Definition arcana : Skill :=
  {| skill_label := "Arcana"; skill_stat := INT; skill_proficient := false;
     skill_expertise := false; skill_override := false; skill_overrideValue := 0 |}.

Definition drake_skilled : Monster :=
  drake [perception; stealth; athletics; arcana] [] [] [].

(** A monster with a multiattack group of attacks and an action, and with
    legendary actions that refer to a legendary-only action and to an
    attack. *)
Definition drake_lord : Monster :=
  sample scores d10x6 [perception] [keen_senses]
         [bite; claw; shortbow; venom_bite]
         [roar; breath "DAY"; tail_swipe; leap]
         [{| ma_attacks := ["a1"; "a1"; "a2"]; ma_actions := ["b1"] |}]
         [{| actionId := "b3"; cost := 1 |}; {| actionId := "a1"; cost := 2 |}].

(** * Properties *)

(** ** The error monad *)

(** Splits a hypothesis [bind c k = Ok b], again and again. *)
Ltac invert_bind H :=
  repeat match type of H with
         | bind ?c _ = Ok _ =>
             let E := fresh "E" in
             destruct c eqn:E; cbn beta iota zeta delta [bind] in H;
             [ | discriminate H ]
         end.

(** A loop that returns gives one result for each element. *)
Lemma mapM_ok_length {A B : Type} (f : A -> result B) (xs : list A) (ys : list B) :
  mapM f xs = Ok ys -> List.length ys = List.length xs.
Proof.
  revert ys; induction xs as [| x xs IH]; simpl; intros ys H.
  - injection H as <-; reflexivity.
  - invert_bind H. injection H as <-. simpl. f_equal. now apply IH.
Qed.

(** [mapM] stops at the first element on which [f] raises. *)
Lemma mapM_error_first {A B : Type} (f : A -> result B) (xs : list A) (x : A) :
  In x xs -> (exists e, f x = Error e) ->
  exists x' e', In x' xs /\ f x' = Error e' /\ mapM f xs = Error e'.
Proof.
  induction xs as [| y xs IH]; simpl; intros Hin Hx; [ contradiction | ].
  destruct (f y) as [b | e] eqn:Ey.
  - destruct Hin as [-> | Hin].
    + destruct Hx as [e He]; congruence.
    + destruct (IH Hin Hx) as (x' & e' & Hin' & Hx' & Hm).
      exists x', e'. rewrite Hm. simpl. auto.
  - exists y, e. simpl. auto.
Qed.

(** ** The stages of [parse_stats] *)

Section Stages.

Variable num2words : Z -> string.
Variable float_str : float -> string.

Let parse := parse_stats num2words float_str.
Let multiattack := process_multiattack num2words.
Let attack_entries := process_attacks num2words float_str.

(** A conversion that returns went through every stage, and the fields of
    the statblock are what the stages returned. *)
Lemma parse_stats_ok (json_stats : Monster) (out : Statblock) :
  parse json_stats = Ok out ->
  exists hp ts ma atks leg,
    hit_points json_stats = Ok hp
    /\ mapM (trait_entry json_stats) (traits json_stats) = Ok ts
    /\ multiattack json_stats = Ok ma
    /\ attack_entries json_stats = Ok atks
    /\ process_legendary_actions json_stats = Ok leg
    /\ out_hp out = hp
    /\ out_traits out = ts
    /\ out_actions out = actions_of json_stats ma atks
    /\ out_senses out
       = join ", "
           (sense_strs json_stats
            ++ [("Passive Perception "
                 ++ str_int (passive_perception (skill_bonuses json_stats)))%string])%list
    /\ out_legendary_actions out = leg.
Proof.
  unfold parse, parse_stats. intros H.
  destruct (hit_points json_stats) as [hp | ] eqn:Ehp; [ | discriminate ].
  destruct (mapM (trait_entry json_stats) (traits json_stats)) as [ts | ] eqn:Ets;
    [ | discriminate ].
  destruct (process_multiattack num2words json_stats) as [ma | ] eqn:Ema;
    [ | discriminate ].
  destruct (process_attacks num2words float_str json_stats) as [atks | ] eqn:Eatk;
    [ | cbn in H; destruct (nonempty ma); discriminate ].
  destruct (process_legendary_actions json_stats) as [leg | ] eqn:Eleg;
    [ | cbn in H; destruct (nonempty ma); discriminate ].
  exists hp, ts, ma, atks, leg.
  unfold multiattack, attack_entries, actions_of. rewrite Ema, Eatk.
  cbn in H.
  destruct (nonempty ma); cbn in H; injection H as <-; cbn;
    repeat split; reflexivity.
Qed.

(** The stages in the order in which they can stop the conversion. *)
Lemma parse_stats_traits_error (json_stats : Monster) (hp : Z) (e : error) :
  hit_points json_stats = Ok hp ->
  mapM (trait_entry json_stats) (traits json_stats) = Error e ->
  parse json_stats = Error e.
Proof.
  unfold parse, parse_stats. intros -> ->. reflexivity.
Qed.





End Stages.

(** ** Legendary actions *)

(** C1 (the code departs from it).  The claim: every legendary-action
    reference whose entry is not legendary-only contributes an entry to
    [legendary_actions], described as "The <monster> uses its <action>
    action." and named with " (Costs <n> Actions)" when the cost is not 1.
    The code builds that entry in each turn of its loop and appends it to
    nothing: whenever the conversion returns, [legendary_actions] is empty.
    For a reference to the bite at a cost of 2 the entry built is the one the
    claim names, and the list returned is empty. *)
Theorem legendary_actions_always_empty :
  (forall num2words float_str json_stats,
      match parse_stats num2words float_str json_stats with
      | Ok out => out_legendary_actions out = []
      | Error _ => True
      end)
  /\ legendary_entry drake_legendary {| actionId := "a1"; cost := 2 |}
     = Ok {| entry_name := "Bite (Costs 2 Actions)";
             entry_desc := "The Drake uses its Bite action." |}
  /\ process_legendary_actions drake_legendary = Ok []
  /\ fmap out_legendary_actions
          (parse_stats num2words_en float_str_exact drake_legendary) = Ok [].
Proof.
  split; [ | repeat split; vm_compute; reflexivity ].
  intros n2w fs js.
  destruct (parse_stats n2w fs js) as [out | e] eqn:H; [ | exact I ].
  destruct (parse_stats_ok _ _ _ _ H)
    as (hp & ts & ma & atks & leg & _ & _ & _ & _ & Hleg & _ & _ & _ & _ & ->).
  unfold process_legendary_actions in Hleg. invert_bind Hleg.
  now injection Hleg as <-.
Qed.

(** ** Multiattack *)

(** A [Counter] of some ids is not empty. *)
Lemma counter_add_not_nil (id_ : string) (c : list (string * Z)) :
  counter_add id_ c <> [].
Proof.
  destruct c as [| [k n] c]; simpl; [ discriminate | ].
  destruct (String.eqb k id_); discriminate.
Qed.

Lemma fold_counter_not_nil (ids : list string) (c : list (string * Z)) :
  c <> [] -> fold_left (fun c id_ => counter_add id_ c) ids c <> [].
Proof.
  revert c; induction ids as [| i ids IH]; simpl; intros c Hc; [ exact Hc | ].
  apply IH, counter_add_not_nil.
Qed.

Lemma Counter_not_nil (ids : list string) : ids <> [] -> Counter ids <> [].
Proof.
  destruct ids as [| i ids]; [ congruence | intros _ ].
  unfold Counter. simpl. apply fold_counter_not_nil. discriminate.
Qed.

(** C2 (the code departs from it).  The claim: a multiattack group that
    refers to at least one action is phrased "uses <actions> followed by
    <attacks>".  The code appends the phrases of the actions to the list of
    the attacks, so its list of actions is empty and the "uses" branch is
    never taken: such a group is phrased "makes ", then the phrases of the
    attacks and of the actions, joined by commas. *)
Theorem multiattack_with_actions_says_makes
    (num2words : Z -> string) (json_stats : Monster) (ma : Multiattack)
    (phrase : string) :
  ma_actions ma <> [] ->
  multiattack_phrase num2words json_stats ma = Ok phrase ->
  exists attacks actions,
    mapM (action_phrase num2words json_stats) (Counter (ma_actions ma)) = Ok actions
    /\ actions <> []
    /\ phrase = "makes " ++ join ", " (attacks ++ actions)%list.
Proof.
  intros Hne H. unfold multiattack_phrase in H. invert_bind H.
  injection H as <-. exists a, a0. split; [ reflexivity | split; [ | reflexivity ] ].
  intros ->. apply mapM_ok_length in E0. simpl in E0.
  apply (Counter_not_nil _ Hne). now apply length_zero_iff_nil.
Qed.

Lemma multiattack_with_actions_says_makes_witness :
  ma_actions {| ma_attacks := ["a1"]; ma_actions := ["b1"] |} <> []
  /\ multiattack_phrase num2words_en drake_bite_roar
       {| ma_attacks := ["a1"]; ma_actions := ["b1"] |}
     = Ok "makes one Bite attack, one Roar"
  /\ exists attacks actions,
       mapM (action_phrase num2words_en drake_bite_roar) (Counter ["b1"]) = Ok actions
       /\ actions <> []
       /\ "makes one Bite attack, one Roar" = "makes " ++ join ", " (attacks ++ actions)%list.
Proof.
  split; [ discriminate | split; [ reflexivity | ] ].
  apply (multiattack_with_actions_says_makes num2words_en drake_bite_roar
           {| ma_attacks := ["a1"]; ma_actions := ["b1"] |}).
  - discriminate.
  - reflexivity.
Defined.

(** A text that ends with some characters is not empty. *)
Lemma nonempty_app_r (s t : string) : nonempty t = true -> nonempty (s ++ t) = true.
Proof. destruct s; simpl; auto. Qed.

(** C6 (the code departs from it).  The claim: with no multiattack group
    there is no Multiattack entry.  The code adds the entry when the text of
    [process_multiattack] is not empty, and that text always holds the name,
    a space and a period: without any group the list of actions starts with
    a Multiattack entry described as "<name> .". *)
Theorem multiattack_entry_without_groups
    (num2words : Z -> string) (float_str : float -> string)
    (json_stats : Monster) (out : Statblock) :
  multiattacks json_stats = [] ->
  parse_stats num2words float_str json_stats = Ok out ->
  exists rest,
    out_actions out
    = {| entry_name := "Multiattack"; entry_desc := name json_stats ++ " ." |} :: rest.
Proof.
  intros Hno H.
  destruct (parse_stats_ok _ _ _ _ H)
    as (hp & ts & ma & atks & leg & _ & _ & Hma & _ & _ & _ & _ & -> & _).
  unfold process_multiattack in Hma. rewrite Hno in Hma. simpl in Hma.
  injection Hma as <-. unfold actions_of.
  rewrite nonempty_app_r by reflexivity. simpl. eauto.
Qed.

Lemma multiattack_entry_without_groups_witness :
  multiattacks drake_plain = []
  /\ fmap out_actions (parse_stats num2words_en float_str_exact drake_plain)
     = Ok [{| entry_name := "Multiattack"; entry_desc := "Drake ." |};
           {| entry_name := "Bite"; entry_desc := "Hit: 10 (2d6+3) piercing damage." |};
           {| entry_name := "Claw"; entry_desc := "Hit: 7 (1d8+3) slashing damage." |};
           {| entry_name := "Shortbow"; entry_desc := "Hit: 6 (1d6+3) piercing damage." |};
           {| entry_name := "Flame Sword";
              entry_desc := "Hit: 7 (1d8+3) slashing damage, or 8 (1d10+3) slashing damage if the blade is lit." |};
           {| entry_name := "Roar";
              entry_desc := "Each creature within 30 feet must succeed on a DC 9 Wisdom saving throw." |}]
  /\ exists out rest,
       parse_stats num2words_en float_str_exact drake_plain = Ok out
       /\ out_actions out
          = {| entry_name := "Multiattack"; entry_desc := "Drake ." |} :: rest.
Proof.
  split; [ reflexivity | split; [ vm_compute; reflexivity | ] ].
  destruct (parse_stats num2words_en float_str_exact drake_plain) as [out | e] eqn:H;
    [ | vm_compute in H; discriminate H ].
  exists out.
  destruct (multiattack_entry_without_groups num2words_en float_str_exact
              drake_plain out eq_refl H) as [rest Hrest].
  exists rest. split; [ reflexivity | exact Hrest ].
Defined.

(** ** Senses *)

(** C4 (as amended).  The senses of a statblock end with "Passive
    Perception <p>" where p is the perception bonus stored in the skills
    alone, and 0 without a perception entry: the base of 10 is left out, as
    the specification notes of the source. *)
Theorem passive_perception_starts_from_zero
    (num2words : Z -> string) (float_str : float -> string)
    (json_stats : Monster) (out : Statblock) :
  parse_stats num2words float_str json_stats = Ok out ->
  out_skillsaves out = skill_bonuses json_stats
  /\ out_senses out
     = join ", "
         (sense_strs json_stats
          ++ [("Passive Perception "
               ++ str_int match dict_get "perception" (out_skillsaves out) with
                          | Some bonus => bonus
                          | None => 0
                          end)%string])%list.
Proof.
  intros H.
  assert (Hs : out_skillsaves out = skill_bonuses json_stats).
  { unfold parse_stats in H. invert_bind H. now injection H as <-. }
  split; [ exact Hs | ].
  destruct (parse_stats_ok _ _ _ _ H)
    as (hp & ts & ma & atks & leg & _ & _ & _ & _ & _ & _ & _ & _ & -> & _).
  rewrite Hs. unfold passive_perception.
  now destruct (dict_get "perception" (skill_bonuses json_stats)).
Qed.

Lemma passive_perception_starts_from_zero_witness :
  fmap out_skillsaves (parse_stats num2words_en float_str_exact drake_perceptive)
  = Ok [("perception", 3)]
  /\ fmap out_senses (parse_stats num2words_en float_str_exact drake_perceptive)
     = Ok "Darkvision 60 ft., Passive Perception 3"
  /\ fmap out_senses (parse_stats num2words_en float_str_exact drake_plain)
     = Ok "Darkvision 60 ft., Passive Perception 0"
  /\ exists out,
       parse_stats num2words_en float_str_exact drake_perceptive = Ok out
       /\ out_senses out
          = join ", "
              (sense_strs drake_perceptive
               ++ [("Passive Perception "
                    ++ str_int match dict_get "perception" (out_skillsaves out) with
                               | Some bonus => bonus
                               | None => 0
                               end)%string])%list.
Proof.
  repeat (split; [ vm_compute; reflexivity | ]).
  destruct (parse_stats num2words_en float_str_exact drake_perceptive)
    as [out | e] eqn:H; [ | vm_compute in H; discriminate H ].
  exists out. split; [ reflexivity | ].
  exact (proj2 (passive_perception_starts_from_zero num2words_en float_str_exact
                  drake_perceptive out H)).
Defined.

(** C4 (as stated, refuted).  With a perception bonus of 3 the senses end
    with "Passive Perception 3", not 13, and without a perception entry with
    "Passive Perception 0", not 10. *)
Lemma passive_perception_counterexample :
  (dict_get "perception" (skill_bonuses drake_perceptive) = Some 3
   /\ spec_passive_perception (skill_bonuses drake_perceptive) = 13
   /\ fmap out_senses (parse_stats num2words_en float_str_exact drake_perceptive)
      = Ok "Darkvision 60 ft., Passive Perception 3"
   /\ fmap out_senses (parse_stats num2words_en float_str_exact drake_perceptive)
      <> Ok (join ", "
               (sense_strs drake_perceptive
                ++ [("Passive Perception "
                     ++ str_int (spec_passive_perception
                                   (skill_bonuses drake_perceptive)))%string])%list))
  /\ (dict_get "perception" (skill_bonuses drake_plain) = None
      /\ spec_passive_perception (skill_bonuses drake_plain) = 10
      /\ fmap out_senses (parse_stats num2words_en float_str_exact drake_plain)
         = Ok "Darkvision 60 ft., Passive Perception 0"
      /\ fmap out_senses (parse_stats num2words_en float_str_exact drake_plain)
         <> Ok (join ", "
                  (sense_strs drake_plain
                   ++ [("Passive Perception "
                        ++ str_int (spec_passive_perception
                                      (skill_bonuses drake_plain)))%string])%list)).
Proof.
  split; repeat (split; [ vm_compute; reflexivity | ]); vm_compute; discriminate.
Qed.

(** ** Traits *)

(** A trait raises exactly when its limited-use count is not zero. *)
Lemma trait_entry_error (json_stats : Monster) (t : Trait) (e : error) :
  trait_entry json_stats t = Error e ->
  e = AttributeError /\ lu_count (trait_limitedUse t) <> 0.
Proof.
  unfold trait_entry, nonzero.
  destruct (Z.eqb_spec (lu_count (trait_limitedUse t)) 0); simpl; intros H.
  - discriminate.
  - injection H as <-. auto.
Qed.

Lemma trait_entry_limited (json_stats : Monster) (t : Trait) :
  lu_count (trait_limitedUse t) <> 0 ->
  trait_entry json_stats t = Error AttributeError.
Proof.
  unfold trait_entry, nonzero. intros H.
  destruct (Z.eqb_spec (lu_count (trait_limitedUse t)) 0); [ contradiction | reflexivity ].
Qed.

(** A trait without limited use is listed under its own name, with its
    description after the tag substitution. *)
Lemma trait_entry_plain (json_stats : Monster) (t : Trait) :
  lu_count (trait_limitedUse t) = 0 ->
  trait_entry json_stats t
  = Ok {| entry_name := trait_name t;
          entry_desc := process_description (trait_description t) json_stats |}.
Proof.
  unfold trait_entry, nonzero. intros ->. reflexivity.
Qed.

(** C5 (the code departs from it).  The claim: a trait with a limited-use
    count that is not zero is listed with " (<count>/<rate>)" after its name.
    The code calls [append] on the name, which a string does not have: once
    the hit points are computed, one such trait stops the conversion with an
    [AttributeError], and there is no statblock. *)
Theorem limited_use_trait_raises
    (num2words : Z -> string) (float_str : float -> string)
    (json_stats : Monster) (t : Trait) (hp : Z) :
  In t (traits json_stats) ->
  lu_count (trait_limitedUse t) <> 0 ->
  hit_points json_stats = Ok hp ->
  parse_stats num2words float_str json_stats = Error AttributeError.
Proof.
  intros Hin Hcount Hhp.
  destruct (mapM_error_first (trait_entry json_stats) (traits json_stats) t Hin)
    as (t' & e' & _ & Ht' & Hm).
  { exists AttributeError. now apply trait_entry_limited. }
  apply trait_entry_error in Ht' as [-> _].
  exact (parse_stats_traits_error num2words float_str json_stats hp _ Hhp Hm).
Qed.

Lemma limited_use_trait_raises_witness :
  In legendary_resistance (traits drake_resistant)
  /\ lu_count (trait_limitedUse legendary_resistance) <> 0
  /\ hit_points drake_resistant = Ok 39
  /\ parse_stats num2words_en float_str_exact drake_resistant = Error AttributeError.
Proof.
  assert (Hin : In legendary_resistance (traits drake_resistant))
    by (left; reflexivity).
  assert (Hcount : lu_count (trait_limitedUse legendary_resistance) <> 0)
    by discriminate.
  assert (Hhp : hit_points drake_resistant = Ok 39) by (vm_compute; reflexivity).
  repeat (split; [ assumption | ]).
  exact (limited_use_trait_raises num2words_en float_str_exact drake_resistant
           legendary_resistance 39 Hin Hcount Hhp).
Defined.

(** ** Strings *)

(** Concatenation is associative. *)
Lemma append_assoc (s t u : string) : (s ++ t) ++ u = s ++ (t ++ u).
Proof. induction s as [| c s IH]; simpl; [ reflexivity | now rewrite IH ]. Qed.

(** Brings a concatenation to the form [s1 ++ (s2 ++ ...)]. *)
Ltac normalize_append :=
  repeat (progress (rewrite ?append_assoc; cbn [append])).

(** ** The text of a multiattack *)

(** Two references to one id, then one to another. *)
Lemma Counter_two_one (a b : string) :
  a <> b -> Counter [a; a; b] = [(a, 2); (b, 1)].
Proof.
  intros Hab. unfold Counter. simpl.
  rewrite String.eqb_refl. simpl.
  now rewrite (proj2 (String.eqb_neq a b) Hab).
Qed.

(** C7 (as amended).  For one multiattack group whose attacks are [a; a; b],
    two references to an attack named A and one to another attack named B,
    and which has no action, the Multiattack text is the name of the
    monster, then " makes two A attacks, and one B attack.": the two phrases
    are joined by a comma, and the last one also starts with "and ". *)
Theorem multiattack_two_then_one
    (num2words : Z -> string) (json_stats : Monster) (a b : string)
    (first second : Item) :
  num2words 2 = "two" ->
  num2words 1 = "one" ->
  a <> b ->
  get_action a json_stats = Ok first ->
  get_action b json_stats = Ok second ->
  multiattacks json_stats = [{| ma_attacks := [a; a; b]; ma_actions := [] |}] ->
  process_multiattack num2words json_stats
  = Ok (name json_stats ++ " makes two " ++ item_name first
        ++ " attacks, and one " ++ item_name second ++ " attack.").
Proof.
  intros H2 H1 Hab Ha Hb Hma.
  unfold process_multiattack, multiattack_phrase. rewrite Hma. simpl.
  rewrite (Counter_two_one a b Hab). cbn.
  rewrite Ha, Hb, H2, H1. cbn.
  normalize_append. reflexivity.
Qed.

Lemma multiattack_two_then_one_witness :
  num2words_en 2 = "two"
  /\ num2words_en 1 = "one"
  /\ "a1" <> "a2"
  /\ get_action "a1" drake_two_bites = Ok (AttackItem bite)
  /\ get_action "a2" drake_two_bites = Ok (AttackItem claw)
  /\ process_multiattack num2words_en drake_two_bites
     = Ok "Drake makes two Bite attacks, and one Claw attack.".
Proof.
  assert (Hab : "a1" <> "a2") by discriminate.
  repeat (split; [ first [ reflexivity | assumption ] | ]).
  exact (multiattack_two_then_one num2words_en drake_two_bites "a1" "a2"
           (AttackItem bite) (AttackItem claw)
           eq_refl eq_refl Hab eq_refl eq_refl eq_refl).
Defined.

(** C7 (as stated, refuted).  With two bites and a claw the text is not
    "Drake makes two Bite attacks and one Claw attack.": the code puts a
    comma before "and". *)
Lemma multiattack_two_then_one_counterexample :
  multiattacks drake_two_bites
  = [{| ma_attacks := ["a1"; "a1"; "a2"]; ma_actions := [] |}]
  /\ fmap item_name (get_action "a1" drake_two_bites) = Ok "Bite"
  /\ fmap item_name (get_action "a2" drake_two_bites) = Ok "Claw"
  /\ process_multiattack num2words_en drake_two_bites
     = Ok "Drake makes two Bite attacks, and one Claw attack."
  /\ process_multiattack num2words_en drake_two_bites
     <> Ok "Drake makes two Bite attacks and one Claw attack.".
Proof.
  repeat (split; [ reflexivity | ]).
  vm_compute. discriminate.
Qed.

(** ** The text of an attack *)

(** A computation followed by a pure step. *)
Lemma bind_ret_fmap {A B : Type} (c : result A) (f : A -> B) :
  bind c (fun a => Ok (f a)) = fmap f c.
Proof. now destruct c. Qed.

(** C3 (the code departs from it).  The claim: the range clause of a ranged
    attack is "range <standard>/<long> ft.", the two integers separated by a
    slash.  The code divides the standard range by the long range and writes
    the quotient, a float, or raises when the division does; and the line
    that holds the clause is never joined to the description: the entry of
    the attack is made of the "Hit: ..." text alone. *)
Theorem ranged_clause_is_a_quotient
    (num2words : Z -> string) (float_str : float -> string)
    (json_stats : Monster) (attack : Attack) :
  atk_distance attack = "RANGED" ->
  match truediv (standard (atk_range attack)) (long (atk_range attack)) with
  | Ok q =>
      attack_line num2words float_str json_stats attack
      = Ok (title ("RANGED " ++ atk_kind attack ++ " Attack: ")
            ++ str_signed (resolve_modifier json_stats (atk_modifier attack))
            ++ " to hit, " ++ "range " ++ float_str q ++ " ft." ++ ", "
            ++ num2words (atk_targets attack) ++ " target"
            ++ (if 1 <? atk_targets attack then "s" else "") ++ ". ")
      /\ attack_entry num2words float_str json_stats attack
         = fmap (fun description =>
                   {| entry_name := atk_name attack;
                      entry_desc := process_description description json_stats |})
                (attack_description json_stats attack)
  | Error e => attack_entry num2words float_str json_stats attack = Error e
  end.
Proof.
  intros Hd.
  assert (Hl : attack_line num2words float_str json_stats attack
               = bind (truediv (standard (atk_range attack)) (long (atk_range attack)))
                   (fun q =>
                      Ok (title ("RANGED " ++ atk_kind attack ++ " Attack: ")
                          ++ str_signed (resolve_modifier json_stats (atk_modifier attack))
                          ++ " to hit, " ++ "range " ++ float_str q ++ " ft." ++ ", "
                          ++ num2words (atk_targets attack) ++ " target"
                          ++ (if 1 <? atk_targets attack then "s" else "") ++ ". "))).
  { unfold attack_line. rewrite Hd. cbn.
    destruct (truediv (standard (atk_range attack)) (long (atk_range attack)));
      cbn; [ | reflexivity ].
    normalize_append. reflexivity. }
  unfold attack_entry. rewrite Hl.
  destruct (truediv (standard (atk_range attack)) (long (atk_range attack)));
    cbn; [ | reflexivity ].
  split; [ reflexivity | apply bind_ret_fmap ].
Qed.

Lemma ranged_clause_is_a_quotient_witness :
  atk_distance shortbow = "RANGED"
  /\ fmap float_str_exact (truediv 80 320) = Ok "0.25"
  /\ attack_line num2words_en float_str_exact drake_plain shortbow
     = Ok "Ranged Weapon Attack: +3 to hit, range 0.25 ft., one target. "
  /\ attack_entry num2words_en float_str_exact drake_plain shortbow
     = Ok {| entry_name := "Shortbow";
             entry_desc := "Hit: 6 (1d6+3) piercing damage." |}.
Proof.
  split; [ reflexivity | split; [ vm_compute; reflexivity | ] ].
  exact (ranged_clause_is_a_quotient num2words_en float_str_exact drake_plain
           shortbow eq_refl).
Defined.

(** The damage phrase, once the dice are averaged. *)
Lemma damage_str_ok (count dice_type modifier : Z) (damage_type text : string) :
  damage_str count dice_type modifier damage_type = Ok text ->
  exists dice,
    calc_dice count dice_type = Ok dice
    /\ text = str_int (dice + modifier) ++ " (" ++ str_int count ++ "d"
              ++ str_int dice_type ++ str_signed modifier ++ ") "
              ++ damage_type ++ " damage".
Proof.
  unfold damage_str. intros H. invert_bind H. injection H as <-.
  eexists; split; [ reflexivity | ]. normalize_append. reflexivity.
Qed.

(** C8 (the code departs from it).  The claim: an active alternate damage
    adds ", or ", the damage phrase of the alternate damage with its own
    count, dice, modifier and damage type, a space and the condition.  The
    code does so with the count, the dice and the modifier of the alternate
    damage, and with the damage type of the primary damage. *)
Theorem alternate_damage_takes_primary_type
    (json_stats : Monster) (attack : Attack) (text : string) :
  alt_active (atk_alternateDamage attack) = true ->
  attack_description json_stats attack = Ok text ->
  let primary := atk_damage attack in
  let alternate := atk_alternateDamage attack in
  let modifier := resolve_modifier json_stats (alt_modifier alternate) in
  exists hit dice rest,
    damage_str (dmg_count primary) (dmg_dice primary)
               (resolve_modifier json_stats (dmg_modifier primary))
               (dmg_type primary) = Ok hit
    /\ calc_dice (alt_count alternate) (alt_dice alternate) = Ok dice
    /\ text = "Hit: " ++ hit ++ ", or "
              ++ str_int (dice + modifier) ++ " (" ++ str_int (alt_count alternate)
              ++ "d" ++ str_int (alt_dice alternate) ++ str_signed modifier ++ ") "
              ++ dmg_type primary ++ " damage"
              ++ " " ++ alt_condition alternate ++ rest.
Proof.
  intros Hactive H. cbv zeta.
  unfold attack_description in H. rewrite Hactive in H.
  destruct (damage_str (dmg_count (atk_damage attack)) (dmg_dice (atk_damage attack))
              (resolve_modifier json_stats (dmg_modifier (atk_damage attack)))
              (dmg_type (atk_damage attack))) as [hit | ] eqn:Ehit;
    [ | discriminate ].
  cbn beta iota zeta delta [bind] in H.
  destruct (damage_str (alt_count (atk_alternateDamage attack))
              (alt_dice (atk_alternateDamage attack))
              (resolve_modifier json_stats (alt_modifier (atk_alternateDamage attack)))
              (dmg_type (atk_damage attack))) as [alt | ] eqn:Ealt;
    [ | discriminate ].
  cbn beta iota zeta delta [bind] in H.
  destruct (damage_str_ok _ _ _ _ _ Ealt) as (dice & Hdice & ->).
  exists hit, dice.
  destruct (truthy (atk_additionalDamage attack)).
  - destruct (mapM (additional_phrase (len (atk_additionalDamage attack)))
                (enumerate_from 1 (atk_additionalDamage attack))) as [parts | ];
      [ | discriminate ].
    cbn beta iota zeta delta [bind] in H. injection H as <-.
    destruct (nonempty (atk_description attack));
      (eexists; split; [ reflexivity | split; [ exact Hdice | ] ];
       normalize_append; reflexivity).
  - cbn beta iota zeta delta [bind] in H. injection H as <-.
    destruct (nonempty (atk_description attack));
      (eexists; split; [ reflexivity | split; [ exact Hdice | ] ];
       normalize_append; reflexivity).
Qed.

Lemma alternate_damage_takes_primary_type_witness :
  alt_active (atk_alternateDamage flame_sword) = true
  /\ alt_type (atk_alternateDamage flame_sword) = "fire"
  /\ dmg_type (atk_damage flame_sword) = "slashing"
  /\ attack_description drake_plain flame_sword
     = Ok "Hit: 7 (1d8+3) slashing damage, or 8 (1d10+3) slashing damage if the blade is lit."
  /\ exists hit dice rest,
       damage_str 1 8 3 "slashing" = Ok hit
       /\ calc_dice 1 10 = Ok dice
       /\ "Hit: 7 (1d8+3) slashing damage, or 8 (1d10+3) slashing damage if the blade is lit."
          = "Hit: " ++ hit ++ ", or "
            ++ str_int (dice + 3) ++ " (" ++ str_int 1 ++ "d" ++ str_int 10
            ++ str_signed 3 ++ ") " ++ "slashing" ++ " damage"
            ++ " " ++ "if the blade is lit" ++ rest.
Proof.
  repeat (split; [ reflexivity | ]).
  exact (alternate_damage_takes_primary_type drake_plain flame_sword _ eq_refl eq_refl).
Defined.

(** ** Floats that are exact *)

(** Powers of two. *)
Lemma pow2_pos (k : Z) : 0 <= k -> 0 < 2 ^ k.
Proof. intros. apply Z.pow_pos_nonneg; lia. Qed.

Lemma pow2_split (a b : Z) : 0 <= a -> 0 <= b -> 2 ^ (a + b) = 2 ^ a * 2 ^ b.
Proof. intros. apply Z.pow_add_r; lia. Qed.

Lemma log2_scaled (a k : Z) : 0 < a -> 0 <= k -> Z.log2 (a * 2 ^ k) = Z.log2 a + k.
Proof. intros. rewrite Z.log2_mul_pow2 by lia. lia. Qed.

Lemma log2_below (P : Z) : 0 < P < 2 ^ 53 -> Z.log2 P <= 52.
Proof.
  intros [H0 H1]. apply Z.log2_lt_pow2 in H1; lia.
Qed.

(** A number [P * 2^c] of at most 53 bits, in the range of the finite floats,
    is not changed by the rounding, however it is written as [a * 2^e]. *)
Lemma round_exact (neg : bool) (a e P c lo : Z) :
  0 <= a -> -1074 <= lo <= e -> lo <= c <= 971 -> 0 <= P < 2 ^ 53 ->
  a * 2 ^ (e - lo) = P * 2 ^ (c - lo) ->
  exists x,
    round neg a e false = Ok x
    /\ negative x = neg
    /\ e <= exponent x
    /\ 0 <= mantissa x
    /\ mantissa x * 2 ^ (exponent x - lo) = P * 2 ^ (c - lo).
Proof.
  intros Ha Hlo Hc HP Hv.
  assert (Hpe : 0 < 2 ^ (e - lo)) by (apply pow2_pos; lia).
  assert (Hpc : 0 < 2 ^ (c - lo)) by (apply pow2_pos; lia).
  destruct (Z.eq_dec a 0) as [-> | Hnz].
  - (* zero *)
    assert (P = 0) by nia. subst P.
    unfold round. simpl Z.log2.
    replace (Z.max (0 - 52) (-1074 - e)) with (Z.max (-52) (-1074 - e)) by reflexivity.
    destruct (Z.leb_spec (Z.max (-52) (-1074 - e)) 0) as [_ | Hd]; [ | lia ].
    simpl. eexists. split; [ reflexivity | ]. simpl. repeat split; lia.
  - assert (Hap : 0 < a) by lia.
    assert (HPp : 0 < P) by nia.
    assert (Hlog : Z.log2 a + e = Z.log2 P + c).
    { pose proof (log2_scaled a (e - lo) Hap ltac:(lia)) as H1.
      pose proof (log2_scaled P (c - lo) HPp ltac:(lia)) as H2.
      rewrite Hv in H1. lia. }
    pose proof (log2_below P ltac:(lia)) as HlP.
    unfold round.
    set (drop := Z.max (Z.log2 a - 52) (-1074 - e)).
    destruct (Z.leb_spec drop 0) as [Hd | Hd].
    + replace ((0 <? a) && (1024 <=? Z.log2 a + e)) with false.
      * eexists. split; [ reflexivity | ]. simpl. repeat split; lia.
      * symmetry. apply andb_false_iff. right. apply Z.leb_gt. lia.
    + assert (Hdrop : drop = Z.log2 a - 52) by lia.
      assert (Hj : drop <= c - e) by lia.
      (* a = P * 2^(c - e) *)
      assert (Hae : a = P * 2 ^ (c - e)).
      { replace (c - lo) with ((c - e) + (e - lo)) in Hv by lia.
        rewrite pow2_split in Hv by lia. nia. }
      assert (Hsplit : a = (P * 2 ^ (c - e - drop)) * 2 ^ drop).
      { rewrite Hae. replace (c - e) with ((c - e - drop) + drop) at 1 by lia.
        rewrite pow2_split by lia. ring. }
      assert (Hpd : 0 < 2 ^ drop) by (apply pow2_pos; lia).
      assert (Hhi : a / 2 ^ drop = P * 2 ^ (c - e - drop)).
      { rewrite Hsplit at 1. apply Z.div_mul. lia. }
      assert (Hlo0 : a mod 2 ^ drop = 0).
      { rewrite Hsplit at 1. apply Z.mod_mul. lia. }
      rewrite Hlo0, Hhi.
      assert (Hhalf : 0 < 2 ^ (drop - 1)) by (apply pow2_pos; lia).
      replace (2 ^ (drop - 1) <? 0) with false by (symmetry; apply Z.ltb_ge; lia).
      replace (0 =? 2 ^ (drop - 1)) with false by (symmetry; apply Z.eqb_neq; lia).
      cbn [orb andb].
      assert (Hq : 0 < P * 2 ^ (c - e - drop)).
      { apply Z.mul_pos_pos; [ lia | apply pow2_pos; lia ]. }
      replace ((0 <? P * 2 ^ (c - e - drop))
               && (1024 <=? Z.log2 (P * 2 ^ (c - e - drop)) + (e + drop))) with false.
      * eexists. split; [ reflexivity | ]. simpl.
        repeat split; try lia.
        replace (e + drop - lo) with ((e - lo) + drop) by lia.
        rewrite pow2_split by lia.
        rewrite <- Hv. rewrite Hsplit at 1. ring.
      * symmetry. apply andb_false_iff. right. apply Z.leb_gt.
        rewrite log2_scaled by lia. lia.
Qed.

(** The same with the sign: the rounding of [s * 2^e] when that is the
    representable number [N * 2^c]. *)
Lemma round_value (neg : bool) (s e N c lo : Z) :
  -1074 <= lo <= e -> lo <= c <= 971 -> Z.abs N < 2 ^ 53 ->
  s * 2 ^ (e - lo) = N * 2 ^ (c - lo) ->
  (s <> 0 -> neg = (s <? 0)) ->
  exists z, round neg (Z.abs s) e false = Ok z /\ has_value z N c lo.
Proof.
  intros Hlo Hc HN Hv Hneg.
  assert (Hpe : 0 < 2 ^ (e - lo)) by (apply pow2_pos; lia).
  assert (Hpc : 0 < 2 ^ (c - lo)) by (apply pow2_pos; lia).
  destruct (round_exact neg (Z.abs s) e (Z.abs N) c lo)
    as (z & Hz & Hnz & He & Hm & Hvz); try lia.
  exists z. split; [ exact Hz | ].
  repeat split; try lia.
  assert (Hpz : 0 < 2 ^ (exponent z - lo)) by (apply pow2_pos; lia).
  unfold signed. rewrite Hnz.
  destruct (Z.eq_dec s 0) as [-> | Hs].
  - assert (N = 0) by nia. subst N.
    assert (mantissa z = 0) by nia.
    destruct neg; lia.
  - rewrite (Hneg Hs).
    destruct (Z.ltb_spec s 0); nia.
Qed.

(** The operations of [hit_points] on numbers that need no rounding. *)
Lemma float_of_int_exact (n : Z) :
  Z.abs n < 2 ^ 53 ->
  exists x, float_of_int n = Ok x /\ has_value x n 0 0.
Proof.
  intros Hn. unfold float_of_int.
  apply round_value; [ lia | lia | lia | reflexivity | reflexivity ].
Qed.

Lemma truediv_two_exact (n : Z) :
  Z.abs n < 2 ^ 53 ->
  exists x, truediv n 2 = Ok x /\ has_value x n (-1) (-56).
Proof.
  intros Hn. unfold truediv.
  change (2 =? 0) with false. change (2 <? 0) with false. cbv iota.
  rewrite xorb_false_r.
  destruct (Z.eqb_spec n 0) as [-> | Hnz].
  - eexists. split; [ reflexivity | ]. unfold has_value. simpl. lia.
  - change (Z.log2 (Z.abs 2)) with 1. change (Z.abs 2) with 2.
    assert (Hp : 0 < Z.abs n < 2 ^ 53) by lia.
    pose proof (log2_below _ Hp) as Hl.
    pose proof (Z.log2_nonneg (Z.abs n)) as Hl0.
    set (k := 55 + 1 - Z.log2 (Z.abs n)).
    assert (Hk : 4 <= k <= 56) by lia.
    destruct (Z.leb_spec 0 k) as [_ | ]; [ | lia ].
    assert (Hpk : 0 < 2 ^ (k - 1)) by (apply pow2_pos; lia).
    assert (Hnum : Z.abs n * 2 ^ k = (Z.abs n * 2 ^ (k - 1)) * 2).
    { replace k with ((k - 1) + 1) at 1 by lia.
      rewrite pow2_split by lia. change (2 ^ 1) with 2. ring. }
    rewrite Hnum, Z.div_mul, Z.mod_mul by lia.
    change (negb (0 =? 0)) with false.
    replace (Z.abs n * 2 ^ (k - 1)) with (Z.abs (n * 2 ^ (k - 1)))
      by (rewrite Z.abs_mul, (Z.abs_eq (2 ^ _)); lia).
    apply round_value; [ lia | lia | lia | | ].
    + rewrite <- Z.mul_assoc, <- pow2_split by lia. f_equal. f_equal. lia.
    + intros _. destruct (Z.ltb_spec n 0), (Z.ltb_spec (n * 2 ^ (k - 1)) 0);
        try reflexivity; nia.
Qed.

Lemma signed_abs (x : float) : 0 <= mantissa x -> Z.abs (signed x) = mantissa x.
Proof. unfold signed. destruct (negative x); lia. Qed.

Lemma fmul_exact (x y : float) (Nx cx lox Ny cy loy : Z) :
  has_value x Nx cx lox -> has_value y Ny cy loy ->
  Z.abs (Nx * Ny) < 2 ^ 53 ->
  -1074 <= lox + loy -> lox <= cx -> loy <= cy -> cx + cy <= 971 ->
  exists z, fmul x y = Ok z /\ has_value z (Nx * Ny) (cx + cy) (lox + loy).
Proof.
  intros (Hex & Hmx & Hvx) (Hey & Hmy & Hvy) HN Hlo Hcx Hcy Hc.
  unfold fmul.
  replace (mantissa x * mantissa y) with (Z.abs (signed x * signed y))
    by (rewrite Z.abs_mul, !signed_abs; lia).
  apply round_value; [ lia | lia | lia | | ].
  - replace (exponent x + exponent y - (lox + loy))
      with ((exponent x - lox) + (exponent y - loy)) by lia.
    replace (cx + cy - (lox + loy)) with ((cx - lox) + (cy - loy)) by lia.
    rewrite !pow2_split by lia.
    transitivity ((signed x * 2 ^ (exponent x - lox))
                  * (signed y * 2 ^ (exponent y - loy))); [ ring | ].
    rewrite Hvx, Hvy. ring.
  - unfold signed. intros Hs.
    destruct (negative x), (negative y); simpl;
      symmetry; first [ apply Z.ltb_lt | apply Z.ltb_ge ]; nia.
Qed.

Lemma has_value_rebase (x : float) (N c lo lo' : Z) :
  has_value x N c lo -> lo' <= lo -> lo <= c -> has_value x N c lo'.
Proof.
  intros (He & Hm & Hv) Hlo Hc. repeat split; try lia.
  replace (exponent x - lo') with ((exponent x - lo) + (lo - lo')) by lia.
  replace (c - lo') with ((c - lo) + (lo - lo')) by lia.
  rewrite !pow2_split by lia. rewrite !Z.mul_assoc, Hv. reflexivity.
Qed.

(** A half-integer plus an integer. *)
Lemma fadd_half_exact (x y : float) (Nx Ny lo : Z) :
  has_value x Nx (-1) lo -> has_value y Ny 0 lo ->
  Z.abs (Nx + 2 * Ny) < 2 ^ 53 ->
  -1074 <= lo <= -1 ->
  exists z, fadd x y = Ok z /\ has_value z (Nx + 2 * Ny) (-1) lo.
Proof.
  intros (Hex & Hmx & Hvx) (Hey & Hmy & Hvy) HN Hlo.
  unfold fadd.
  set (e := Z.min (exponent x) (exponent y)).
  set (s := signed x * 2 ^ (exponent x - e) + signed y * 2 ^ (exponent y - e)).
  assert (Hs : s * 2 ^ (e - lo) = (Nx + 2 * Ny) * 2 ^ (-1 - lo)).
  { unfold s. rewrite Z.mul_add_distr_r, <- !Z.mul_assoc, <- !pow2_split by lia.
    replace (exponent x - e + (e - lo)) with (exponent x - lo) by lia.
    replace (exponent y - e + (e - lo)) with (exponent y - lo) by lia.
    rewrite Hvx, Hvy.
    replace (0 - lo) with (1 + (-1 - lo)) by lia.
    rewrite pow2_split by lia. change (2 ^ 1) with 2. ring. }
  apply round_value; [ unfold e; lia | lia | lia | exact Hs | ].
  intros Hnz. apply Z.eqb_neq in Hnz. now rewrite Hnz.
Qed.

(** The floor of a half-integer [N / 2]. *)
Lemma floor_half (x : float) (N lo : Z) :
  has_value x N (-1) lo -> lo <= -1 -> floor x = N / 2.
Proof.
  intros (He & Hm & Hv) Hlo. unfold floor.
  destruct (Z.leb_spec 0 (exponent x)) as [H0 | H0].
  - replace (exponent x - lo) with (exponent x + 1 + (-1 - lo)) in Hv by lia.
    rewrite pow2_split in Hv by lia.
    assert (Hp : 0 < 2 ^ (-1 - lo)) by (apply pow2_pos; lia).
    assert (HN : N = (signed x * 2 ^ exponent x) * 2).
    { rewrite pow2_split in Hv by lia. change (2 ^ 1) with 2 in Hv. nia. }
    rewrite HN. now rewrite Z.div_mul by lia.
  - replace (-1 - lo) with ((-1 - exponent x) + (exponent x - lo)) in Hv by lia.
    rewrite pow2_split in Hv by lia.
    assert (Hp : 0 < 2 ^ (exponent x - lo)) by (apply pow2_pos; lia).
    assert (Hsx : signed x = N * 2 ^ (-1 - exponent x)) by nia.
    replace (- exponent x) with (1 + (-1 - exponent x)) by lia.
    rewrite pow2_split by lia. change (2 ^ 1) with 2.
    rewrite Hsx.
    assert (Hq : 0 < 2 ^ (-1 - exponent x)) by (apply pow2_pos; lia).
    rewrite Z.div_mul_cancel_r by lia. reflexivity.
Qed.

(** The formula of the specification, with integer division. *)
Lemma spec_hit_points_div (d n con : Z) :
  spec_hit_points d n con = ((d + 1) * n) / 2 + calc_modifier con * n.
Proof.
  unfold spec_hit_points, abilityModifier, diceAverage, calc_modifier.
  unfold QArith_base.Qmult, QArith_base.inject_Z, Qround.Qfloor. simpl.
  reflexivity.
Qed.

(** In the exact range the floats of [hit_points] carry the exact values. *)
Lemma hit_points_exact (json_stats : Monster) :
  let d := hd_type (HP json_stats) in
  let n := HD (HP json_stats) in
  let con := stats json_stats CON in
  exact_range d n con ->
  hit_points json_stats = Ok (spec_hit_points d n con).
Proof.
  intros d n con (Hd & Hn & Hdn & Hmn & Hsum).
  rewrite spec_hit_points_div.
  unfold hit_points, dice_avg, fmul_int, fadd_int. fold d n con.
  destruct (truediv_two_exact (d + 1) Hd) as (avg & -> & Havg).
  destruct (float_of_int_exact n Hn) as (y & -> & Hy).
  cbn [bind].
  destruct (fmul_exact avg y _ _ _ _ _ _ Havg Hy Hdn) as (dice & -> & Hdice);
    try lia.
  destruct (float_of_int_exact _ Hmn) as (w & -> & Hw).
  cbn [bind].
  apply has_value_rebase with (lo' := -56) in Hw; try lia.
  destruct (fadd_half_exact dice w _ _ (-56) Hdice Hw Hsum) as (total & -> & Ht);
    try lia.
  cbn [bind]. f_equal.
  rewrite (floor_half total _ (-56) Ht) by lia.
  replace (2 * (calc_modifier con * n)) with (calc_modifier con * n * 2) by ring.
  apply Z.div_add. lia.
Qed.

(** ** Hit points *)

(** C9 (as amended).  On every input whose die type d, hit-die count HD and
    Constitution keep the floats of the computation exact (see
    [exact_range]: the numbers involved stay below 2^53), the hit points are
    computed and equal floor(diceAverage(d) * HD) + abilityModifier(CON) * HD,
    and they are the [hp] field of every statblock returned. *)
Theorem hit_points_in_exact_range
    (num2words : Z -> string) (float_str : float -> string)
    (json_stats : Monster) :
  let d := hd_type (HP json_stats) in
  let n := HD (HP json_stats) in
  let con := stats json_stats CON in
  exact_range d n con ->
  hit_points json_stats = Ok (spec_hit_points d n con)
  /\ match parse_stats num2words float_str json_stats with
     | Ok out => out_hp out = spec_hit_points d n con
     | Error _ => True
     end.
Proof.
  intros d n con Hrange.
  pose proof (hit_points_exact json_stats Hrange) as Hhp.
  split; [ exact Hhp | ].
  destruct (parse_stats num2words float_str json_stats) as [out | e] eqn:H;
    [ | exact I ].
  destruct (parse_stats_ok _ _ _ _ H)
    as (hp & ts & ma & atks & leg & Hhp' & _ & _ & _ & _ & -> & _).
  fold d n con in Hhp. congruence.
Qed.

Lemma hit_points_in_exact_range_witness :
  exact_range 10 6 13
  /\ spec_hit_points 10 6 13 = 39
  /\ hit_points drake_plain = Ok 39
  /\ fmap out_hp (parse_stats num2words_en float_str_exact drake_plain) = Ok 39.
Proof.
  assert (Hrange : exact_range 10 6 13) by (repeat split; reflexivity).
  split; [ exact Hrange | split; [ reflexivity | ] ].
  pose proof (hit_points_in_exact_range num2words_en float_str_exact drake_plain
                Hrange) as [Hhp Hout].
  split; [ exact Hhp | vm_compute; reflexivity ].
Defined.

(** C9 (as stated, refuted).  With one six-sided hit die and a Constitution
    of 2^54 + 10 the sum 3.5 + 2^53 is rounded to 2^53 + 4 before the floor
    is taken: the [hp] field is 9007199254740996, and the formula gives
    9007199254740995. *)
Lemma hit_points_counterexample :
  stats colossus CON = 18014398509481994
  /\ HP colossus = {| HD := 1; hd_type := 6 |}
  /\ fmap out_hp (parse_stats num2words_en float_str_exact colossus)
     = Ok 9007199254740996
  /\ spec_hit_points 6 1 18014398509481994 = 9007199254740995
  /\ fmap out_hp (parse_stats num2words_en float_str_exact colossus)
     <> Ok (spec_hit_points 6 1 18014398509481994).
Proof.
  repeat (split; [ vm_compute; reflexivity | ]).
  vm_compute. discriminate.
Qed.

(** ** References that have no entry *)

(** [get_action] fails exactly on the ids that have no entry, and with the
    error that names the id. *)
Lemma find_none_iff {A : Type} (f : A -> bool) (xs : list A) :
  find f xs = None <-> forall x, In x xs -> f x = false.
Proof.
  split.
  - intros H x Hin. exact (find_none f xs H x Hin).
  - induction xs as [| y xs IH]; simpl; intros H; [ reflexivity | ].
    rewrite (H y (or_introl eq_refl)). apply IH. auto.
Qed.

Lemma get_action_unresolved (json_stats : Monster) (id_ : string) :
  unresolved json_stats id_ <-> get_action id_ json_stats = Error (not_found id_).
Proof.
  unfold unresolved, get_action. split.
  - intros [Hatk Hact].
    rewrite (proj2 (find_none_iff _ _)).
    + rewrite (proj2 (find_none_iff _ _)); [ reflexivity | ].
      intros a Ha. apply String.eqb_neq. auto.
    + intros a Ha. apply String.eqb_neq. auto.
  - destruct (find _ (attacks json_stats)) eqn:Eatk; [ discriminate | ].
    destruct (find _ (actions json_stats)) eqn:Eact; [ discriminate | ].
    intros _. split; intros a Ha; apply String.eqb_neq.
    + exact (proj1 (find_none_iff _ _) Eatk a Ha).
    + exact (proj1 (find_none_iff _ _) Eact a Ha).
Qed.

Lemma get_action_error (json_stats : Monster) (id_ : string) (e : error) :
  get_action id_ json_stats = Error e ->
  e = not_found id_ /\ unresolved json_stats id_.
Proof.
  intros H.
  assert (He : e = not_found id_).
  { unfold get_action in H.
    destruct (find _ (attacks json_stats)); [ discriminate | ].
    destruct (find _ (actions json_stats)); [ discriminate | ].
    now injection H as <-. }
  subst e. split; [ reflexivity | ]. now apply get_action_unresolved.
Qed.

(** A loop that raises does so on one of its elements, and a loop that
    returns went through all of them. *)
Lemma mapM_error_inv {A B : Type} (f : A -> result B) (xs : list A) (e : error) :
  mapM f xs = Error e -> exists x, In x xs /\ f x = Error e.
Proof.
  induction xs as [| y xs IH]; simpl; intros H; [ discriminate | ].
  destruct (f y) as [b | e'] eqn:Ey; simpl in H.
  - destruct (mapM f xs) as [ys | e'']; simpl in H; [ discriminate | ].
    injection H as ->. destruct (IH eq_refl) as (x & Hin & Hx). eauto.
  - injection H as ->. eauto.
Qed.

Lemma mapM_ok_each {A B : Type} (f : A -> result B) (xs : list A) (ys : list B) :
  mapM f xs = Ok ys -> forall x, In x xs -> exists y, f x = Ok y.
Proof.
  revert ys. induction xs as [| z xs IH]; simpl; intros ys H x Hin; [ contradiction | ].
  destruct (f z) as [b | ] eqn:Ez; simpl in H; [ | discriminate ].
  destruct (mapM f xs) as [bs | ] eqn:Em; simpl in H; [ | discriminate ].
  destruct Hin as [<- | Hin]; [ eauto | exact (IH bs eq_refl x Hin) ].
Qed.

(** The keys of a [Counter] are the elements of the list. *)
Lemma counter_add_keys (id_ k : string) (c : list (string * Z)) :
  In k (map fst (counter_add id_ c)) <-> k = id_ \/ In k (map fst c).
Proof.
  induction c as [| [k' n] c IH]; simpl.
  - intuition.
  - destruct (String.eqb_spec k' id_) as [-> | Hne]; simpl.
    + intuition.
    + rewrite IH. intuition.
Qed.

Lemma fold_counter_keys (ids : list string) (c : list (string * Z)) (k : string) :
  In k (map fst (fold_left (fun c id_ => counter_add id_ c) ids c))
  <-> In k ids \/ In k (map fst c).
Proof.
  revert c. induction ids as [| i ids IH]; simpl; intros c.
  - intuition.
  - rewrite IH, counter_add_keys. intuition.
Qed.

Lemma Counter_keys (ids : list string) (k : string) :
  In k (map fst (Counter ids)) <-> In k ids.
Proof.
  unfold Counter. rewrite fold_counter_keys. simpl. intuition.
Qed.

(** [enumerate] keeps the items. *)
Lemma enumerate_from_items {A : Type} (i : Z) (xs : list A) :
  map snd (enumerate_from i xs) = xs.
Proof.
  revert i. induction xs as [| x xs IH]; simpl; intros i; [ reflexivity | ].
  now rewrite IH.
Qed.

Section References.

Variable num2words : Z -> string.
Variable json_stats : Monster.

(** A phrase is rendered when its reference has an entry, and raises the
    error of the lookup otherwise. *)
Lemma attack_phrase_result (n : Z) (item : Z * (string * Z)) :
  (forall e, attack_phrase num2words json_stats n item = Error e
             <-> get_action (fst (snd item)) json_stats = Error e)
  /\ ((exists s, attack_phrase num2words json_stats n item = Ok s)
      <-> exists f, get_action (fst (snd item)) json_stats = Ok f).
Proof.
  destruct item as [i [id_ count]]. unfold attack_phrase. simpl.
  destruct (get_action id_ json_stats) as [f | e']; simpl.
  - split.
    + intros e. split; discriminate.
    + split; eauto.
  - split.
    + intros e. split; intros H; injection H as ->; reflexivity.
    + split; intros [x Hx]; discriminate.
Qed.

Lemma action_phrase_result (item : string * Z) :
  (forall e, action_phrase num2words json_stats item = Error e
             <-> get_action (fst item) json_stats = Error e)
  /\ ((exists s, action_phrase num2words json_stats item = Ok s)
      <-> exists f, get_action (fst item) json_stats = Ok f).
Proof.
  destruct item as [id_ count]. unfold action_phrase. simpl.
  destruct (get_action id_ json_stats) as [f | e']; simpl.
  - split.
    + intros e. split; discriminate.
    + split; eauto.
  - split.
    + intros e. split; intros H; injection H as ->; reflexivity.
    + split; intros [x Hx]; discriminate.
Qed.

(** A group that fails, fails on a reference of its own that has no entry. *)
Lemma multiattack_phrase_error (ma : Multiattack) (e : error) :
  multiattack_phrase num2words json_stats ma = Error e ->
  exists id_,
    In id_ (ma_attacks ma ++ ma_actions ma)
    /\ unresolved json_stats id_
    /\ e = not_found id_.
Proof.
  unfold multiattack_phrase. intros H.
  destruct (mapM (attack_phrase num2words json_stats (len (Counter (ma_attacks ma))))
              (enumerate_from 0 (Counter (ma_attacks ma)))) as [atks | e1] eqn:E1.
  - cbn [bind] in H.
    destruct (mapM (action_phrase num2words json_stats) (Counter (ma_actions ma)))
      as [acts | e2] eqn:E2; cbn [bind] in H; [ discriminate | ].
    injection H as ->.
    destruct (mapM_error_inv _ _ _ E2) as (item & Hin & Hitem).
    apply action_phrase_result in Hitem.
    apply get_action_error in Hitem as [-> Hun].
    exists (fst item). split; [ | auto ].
    apply in_or_app. right. apply Counter_keys. now apply in_map.
  - cbn [bind] in H. injection H as ->.
    destruct (mapM_error_inv _ _ _ E1) as (item & Hin & Hitem).
    apply attack_phrase_result in Hitem.
    apply get_action_error in Hitem as [-> Hun].
    exists (fst (snd item)). split; [ | auto ].
    apply in_or_app. left. apply Counter_keys.
    apply in_map. rewrite <- (enumerate_from_items 0 (Counter (ma_attacks ma))).
    now apply in_map.
Qed.

(** A group with a reference that has no entry fails. *)
Lemma multiattack_phrase_unresolved (ma : Multiattack) (id_ : string) :
  In id_ (ma_attacks ma ++ ma_actions ma) ->
  unresolved json_stats id_ ->
  exists e, multiattack_phrase num2words json_stats ma = Error e.
Proof.
  intros Hin Hun.
  destruct (multiattack_phrase num2words json_stats ma) as [s | e] eqn:H; [ | eauto ].
  exfalso. apply get_action_unresolved in Hun.
  unfold multiattack_phrase in H.
  destruct (mapM (attack_phrase num2words json_stats (len (Counter (ma_attacks ma))))
              (enumerate_from 0 (Counter (ma_attacks ma)))) as [atks | e1] eqn:E1;
    [ | discriminate ].
  cbn [bind] in H.
  destruct (mapM (action_phrase num2words json_stats) (Counter (ma_actions ma)))
    as [acts | e2] eqn:E2; [ | discriminate ].
  apply in_app_or in Hin as [Hin | Hin].
  - apply Counter_keys in Hin.
    rewrite <- (enumerate_from_items 0 (Counter (ma_attacks ma))) in Hin.
    rewrite map_map in Hin. apply in_map_iff in Hin as (item & <- & Hitem).
    destruct (mapM_ok_each _ _ _ E1 item Hitem) as [s' Hs'].
    assert (Hok : exists f, get_action (fst (snd item)) json_stats = Ok f)
      by (apply attack_phrase_result with (n := len (Counter (ma_attacks ma))); eauto).
    destruct Hok as [f Hf]. congruence.
  - apply Counter_keys in Hin. apply in_map_iff in Hin as (item & <- & Hitem).
    destruct (mapM_ok_each _ _ _ E2 item Hitem) as [s' Hs'].
    assert (Hok : exists f, get_action (fst item) json_stats = Ok f)
      by (apply action_phrase_result; eauto).
    destruct Hok as [f Hf]. congruence.
Qed.

(** The same for all the groups of the monster. *)
Lemma process_multiattack_error (e : error) :
  process_multiattack num2words json_stats = Error e ->
  exists id_,
    In id_ (multiattack_refs json_stats)
    /\ unresolved json_stats id_
    /\ e = not_found id_.
Proof.
  unfold process_multiattack. intros H.
  destruct (mapM (multiattack_phrase num2words json_stats) (multiattacks json_stats))
    as [phrases | e1] eqn:E; cbn [bind] in H; [ discriminate | ].
  injection H as ->.
  destruct (mapM_error_inv _ _ _ E) as (ma & Hin & Hma).
  destruct (multiattack_phrase_error ma e Hma) as (id_ & Hid & Hun & ->).
  exists id_. split; [ | auto ].
  unfold multiattack_refs. apply in_flat_map. eauto.
Qed.

Lemma process_multiattack_unresolved (id_ : string) :
  In id_ (multiattack_refs json_stats) ->
  unresolved json_stats id_ ->
  exists e, process_multiattack num2words json_stats = Error e.
Proof.
  unfold multiattack_refs. intros Hin Hun.
  apply in_flat_map in Hin as (ma & Hma & Hid).
  destruct (mapM_error_first (multiattack_phrase num2words json_stats)
              (multiattacks json_stats) ma Hma
              (multiattack_phrase_unresolved ma id_ Hid Hun))
    as (ma' & e' & _ & _ & Hm).
  exists e'. unfold process_multiattack. now rewrite Hm.
Qed.

(** The references of the legendary actions. *)
Lemma legendary_entry_result (action_info : LegendaryRef) :
  (forall e, legendary_entry json_stats action_info = Error e
             <-> get_action (actionId action_info) json_stats = Error e)
  /\ ((exists entry, legendary_entry json_stats action_info = Ok entry)
      <-> exists f, get_action (actionId action_info) json_stats = Ok f).
Proof.
  unfold legendary_entry.
  destruct (get_action (actionId action_info) json_stats) as [f | e']; simpl.
  - split.
    + intros e. split; discriminate.
    + split; eauto.
  - split.
    + intros e. split; intros H; injection H as ->; reflexivity.
    + split; intros [x Hx]; discriminate.
Qed.

Lemma process_legendary_actions_error (e : error) :
  process_legendary_actions json_stats = Error e ->
  exists id_,
    In id_ (legendary_refs json_stats)
    /\ unresolved json_stats id_
    /\ e = not_found id_.
Proof.
  unfold process_legendary_actions. intros H.
  destruct (mapM (legendary_entry json_stats) (legendaryActions json_stats))
    as [entries | e1] eqn:E; cbn [bind] in H; [ discriminate | ].
  injection H as ->.
  destruct (mapM_error_inv _ _ _ E) as (info & Hin & Hinfo).
  apply legendary_entry_result in Hinfo.
  apply get_action_error in Hinfo as [-> Hun].
  exists (actionId info). split; [ | auto ].
  unfold legendary_refs. now apply in_map.
Qed.

Lemma process_legendary_actions_unresolved (id_ : string) :
  In id_ (legendary_refs json_stats) ->
  unresolved json_stats id_ ->
  exists e, process_legendary_actions json_stats = Error e.
Proof.
  unfold legendary_refs. intros Hin Hun.
  apply in_map_iff in Hin as (info & <- & Hinfo).
  apply get_action_unresolved in Hun.
  destruct (mapM_error_first (legendary_entry json_stats)
              (legendaryActions json_stats) info Hinfo)
    as (info' & e' & _ & _ & Hm).
  { exists (not_found (actionId info)). now apply legendary_entry_result. }
  exists e'. unfold process_legendary_actions. now rewrite Hm.
Qed.

End References.




(** * Further properties *)

(** ** Modifiers and dice *)

(** X1.  Two more points of an ability score are one more point of modifier, and
    the modifier is the floor of (score - 10) / 2: it rounds down, also below
    a score of 10. *)
Theorem calc_modifier_rounds_down (score : Z) :
  calc_modifier (score + 2) = calc_modifier score + 1
  /\ 2 * calc_modifier score <= score - 10 < 2 * calc_modifier score + 2.
Proof.
  unfold calc_modifier. split.
  - replace (score + 2 - 10) with (score - 10 + 1 * 2) by ring.
    now rewrite Z.div_add by lia.
  - pose proof (Z.div_mod (score - 10) 2 ltac:(lia)).
    pose proof (Z.mod_pos_bound (score - 10) 2 ltac:(lia)). lia.
Qed.

(** X2.  A higher ability score never gives a lower modifier. *)
Theorem calc_modifier_monotone (low high : Z) :
  low <= high -> calc_modifier low <= calc_modifier high.
Proof.
  intros H. unfold calc_modifier. apply Z.div_le_mono; lia.
Qed.

Lemma calc_modifier_monotone_witness :
  9 <= 11 /\ calc_modifier 9 = -1 /\ calc_modifier 11 = 0
  /\ calc_modifier 9 <= calc_modifier 11.
Proof.
  assert (H : 9 <= 11) by lia.
  repeat (split; [ first [ exact H | reflexivity ] | ]).
  exact (calc_modifier_monotone 9 11 H).
Defined.

Lemma calc_dice_exact (count dice_type : Z) :
  Z.abs (dice_type + 1) < 2 ^ 53 ->
  Z.abs count < 2 ^ 53 ->
  Z.abs (count * (dice_type + 1)) < 2 ^ 53 ->
  calc_dice count dice_type = Ok (count * (dice_type + 1) / 2).
Proof.
  intros Hd Hc Hcd. unfold calc_dice, dice_avg.
  destruct (truediv_two_exact (dice_type + 1) Hd) as (avg & -> & Havg).
  destruct (float_of_int_exact count Hc) as (c & -> & Hcv).
  cbn [bind].
  destruct (fmul_exact c avg _ _ _ _ _ _ Hcv Havg Hcd) as (x & -> & Hx); try lia.
  cbn [bind]. f_equal. apply (floor_half x _ (-56)); [ exact Hx | lia ].
Qed.

(** X3.  While the numbers stay below 2^53, the floats of [calc_dice] need no
    rounding: the result is the floor of count * (dice_type + 1) / 2, and no
    error is raised. *)
Theorem calc_dice_in_exact_range (count dice_type : Z) :
  Z.abs (dice_type + 1) < 2 ^ 53 ->
  Z.abs count < 2 ^ 53 ->
  Z.abs (count * (dice_type + 1)) < 2 ^ 53 ->
  calc_dice count dice_type = Ok (count * (dice_type + 1) / 2).
Proof. exact (calc_dice_exact count dice_type). Qed.

Lemma calc_dice_in_exact_range_witness :
  Z.abs (6 + 1) < 2 ^ 53 /\ Z.abs 8 < 2 ^ 53 /\ Z.abs (8 * (6 + 1)) < 2 ^ 53
  /\ calc_dice 8 6 = Ok 28.
Proof.
  assert (H1 : Z.abs (6 + 1) < 2 ^ 53) by reflexivity.
  assert (H2 : Z.abs 8 < 2 ^ 53) by reflexivity.
  assert (H3 : Z.abs (8 * (6 + 1)) < 2 ^ 53) by reflexivity.
  repeat (split; [ assumption | ]).
  exact (calc_dice_in_exact_range 8 6 H1 H2 H3).
Defined.

(** X4.  In the same range, and when the integers that [damage_str] formats
    (the total, the count, the dice and the modifier) are within the limit
    of the runtime, the damage text is the average of the dice plus the
    modifier, then the dice in parentheses with the modifier under an
    explicit sign, then the type and the word damage. *)
Theorem damage_str_in_exact_range
    (count dice_type modifier : Z) (damage_type : string) :
  Z.abs (dice_type + 1) < 2 ^ 53 ->
  Z.abs count < 2 ^ 53 ->
  Z.abs (count * (dice_type + 1)) < 2 ^ 53 ->
  damage_formats count dice_type modifier = true ->
  damage_str count dice_type modifier damage_type
  = Ok (str_int (count * (dice_type + 1) / 2 + modifier)
        ++ " (" ++ str_int count ++ "d" ++ str_int dice_type
        ++ str_signed modifier ++ ") " ++ damage_type ++ " damage").
Proof.
  intros Hd Hc Hcd _. unfold damage_str.
  rewrite (calc_dice_exact count dice_type Hd Hc Hcd). reflexivity.
Qed.

Lemma damage_str_in_exact_range_witness :
  Z.abs (6 + 1) < 2 ^ 53 /\ Z.abs 2 < 2 ^ 53 /\ Z.abs (2 * (6 + 1)) < 2 ^ 53
  /\ damage_formats 2 6 3 = true
  /\ damage_str 2 6 3 "fire" = Ok "10 (2d6+3) fire damage".
Proof.
  assert (H1 : Z.abs (6 + 1) < 2 ^ 53) by reflexivity.
  assert (H2 : Z.abs 2 < 2 ^ 53) by reflexivity.
  assert (H3 : Z.abs (2 * (6 + 1)) < 2 ^ 53) by reflexivity.
  assert (H4 : damage_formats 2 6 3 = true) by (vm_compute; reflexivity).
  repeat (split; [ assumption | ]).
  exact (damage_str_in_exact_range 2 6 3 "fire" H1 H2 H3 H4).
Defined.

(** ** Collated references *)

Lemma first_seen_in (ids : list string) (k : string) :
  In k (first_seen ids) <-> In k ids.
Proof.
  induction ids as [| i ids IH]; simpl; [ tauto | ].
  rewrite filter_In, IH, negb_true_iff, String.eqb_neq.
  destruct (string_dec i k) as [-> | Hne]; intuition congruence.
Qed.

Lemma first_seen_nodup (ids : list string) : NoDup (first_seen ids).
Proof.
  induction ids as [| i ids IH]; simpl; constructor.
  - rewrite filter_In, String.eqb_refl. simpl. intuition discriminate.
  - now apply NoDup_filter.
Qed.

Lemma first_seen_snoc (pre : list string) (id_ : string) :
  first_seen (pre ++ [id_])
  = if existsb (String.eqb id_) pre then first_seen pre
    else (first_seen pre ++ [id_])%list.
Proof.
  induction pre as [| x pre IH]; simpl; [ reflexivity | ].
  rewrite IH. destruct (String.eqb_spec id_ x) as [-> | Hne]; simpl.
  - destruct (existsb (String.eqb x) pre); [ reflexivity | ].
    rewrite filter_app. simpl. rewrite String.eqb_refl. simpl.
    now rewrite app_nil_r.
  - destruct (existsb (String.eqb id_) pre); [ reflexivity | ].
    rewrite filter_app. simpl.
    now rewrite (proj2 (String.eqb_neq id_ x) Hne).
Qed.

Lemma occurrences_snoc (k id_ : string) (pre : list string) :
  occurrences k (pre ++ [id_])
  = occurrences k pre + (if String.eqb k id_ then 1 else 0).
Proof.
  unfold occurrences. rewrite count_occ_app. simpl.
  destruct (string_dec id_ k) as [-> | Hne].
  - rewrite String.eqb_refl. lia.
  - rewrite (proj2 (String.eqb_neq k id_)) by congruence. lia.
Qed.

Lemma counter_add_present (id_ : string) (f : string -> Z) (ks : list string) :
  NoDup ks -> In id_ ks ->
  counter_add id_ (map (fun k => (k, f k)) ks)
  = map (fun k => (k, f k + (if String.eqb k id_ then 1 else 0))) ks.
Proof.
  induction ks as [| k ks IH]; simpl; intros Hnd Hin; [ contradiction | ].
  inversion Hnd as [| ? ? Hk Hnd']; subst.
  destruct (String.eqb_spec k id_) as [-> | Hne].
  - f_equal. apply map_ext_in. intros k Hk'.
    rewrite (proj2 (String.eqb_neq k id_)) by (intros ->; contradiction).
    f_equal. lia.
  - rewrite Z.add_0_r. f_equal. apply IH; [ exact Hnd' | ].
    destruct Hin; [ contradiction | assumption ].
Qed.

Lemma counter_add_absent (id_ : string) (f : string -> Z) (ks : list string) :
  ~ In id_ ks ->
  counter_add id_ (map (fun k => (k, f k)) ks)
  = (map (fun k => (k, f k)) ks ++ [(id_, 1)])%list.
Proof.
  induction ks as [| k ks IH]; simpl; intros Hin; [ reflexivity | ].
  rewrite (proj2 (String.eqb_neq k id_)) by (intros ->; apply Hin; now left).
  f_equal. apply IH. intros H. apply Hin. now right.
Qed.

Lemma existsb_eqb_in (id_ : string) (ids : list string) :
  existsb (String.eqb id_) ids = true <-> In id_ ids.
Proof.
  rewrite existsb_exists. split.
  - intros (x & Hin & Hx). apply String.eqb_eq in Hx. now subst.
  - intros Hin. exists id_. split; [ exact Hin | apply String.eqb_refl ].
Qed.

Lemma counter_add_collate (pre : list string) (id_ : string) :
  counter_add id_ (collate pre) = collate (pre ++ [id_]).
Proof.
  unfold collate. rewrite first_seen_snoc.
  destruct (existsb (String.eqb id_) pre) eqn:E.
  - apply existsb_eqb_in in E.
    rewrite counter_add_present
      by (first [ apply first_seen_nodup | now apply first_seen_in ]).
    apply map_ext. intros k. now rewrite occurrences_snoc.
  - assert (Hnot : ~ In id_ pre).
    { intros H. apply existsb_eqb_in in H. congruence. }
    rewrite counter_add_absent by (now rewrite first_seen_in).
    rewrite map_app. simpl. f_equal.
    + apply map_ext_in. intros k Hk. rewrite occurrences_snoc.
      rewrite (proj2 (String.eqb_neq k id_)).
      * now rewrite Z.add_0_r.
      * intros ->. apply Hnot. now apply first_seen_in.
    + rewrite occurrences_snoc, String.eqb_refl.
      unfold occurrences. rewrite (proj1 (count_occ_not_In string_dec pre id_) Hnot).
      reflexivity.
Qed.

Lemma fold_counter_collate (ids pre : list string) :
  fold_left (fun c id_ => counter_add id_ c) ids (collate pre)
  = collate (pre ++ ids).
Proof.
  revert pre. induction ids as [| i ids IH]; simpl; intros pre.
  - now rewrite app_nil_r.
  - rewrite counter_add_collate, IH, <- app_assoc. reflexivity.
Qed.

(** X8.  The collated references of a multiattack group are the distinct ids in
    the order in which they are first seen, each with the number of times it
    occurs in the list. *)
Theorem Counter_collates (ids : list string) :
  Counter ids = map (fun id_ => (id_, occurrences id_ ids)) (first_seen ids).
Proof.
  unfold Counter. exact (fold_counter_collate ids []).
Qed.

(** ** Lookups and multiattack groups *)

(** X5.  What [get_action] returns carries the id asked for and comes from the
    attacks or from the actions of the monster; it is an action only when no
    attack has the id. *)
Theorem get_action_finds_entry (id_ : string) (json_stats : Monster) (item : Item) :
  get_action id_ json_stats = Ok item ->
  match item with
  | AttackItem attack => In attack (attacks json_stats) /\ atk_id attack = id_
  | ActionItem action =>
      In action (actions json_stats) /\ act_id action = id_
      /\ forall attack, In attack (attacks json_stats) -> atk_id attack <> id_
  end.
Proof.
  unfold get_action. intros H.
  destruct (find _ (attacks json_stats)) as [attack | ] eqn:Eatk.
  - injection H as <-. apply find_some in Eatk as [Hin Hid].
    split; [ exact Hin | now apply String.eqb_eq ].
  - destruct (find _ (actions json_stats)) as [action | ] eqn:Eact;
      [ | discriminate ].
    injection H as <-. apply find_some in Eact as [Hin Hid].
    split; [ exact Hin | split; [ now apply String.eqb_eq | ] ].
    intros attack Ha. apply String.eqb_neq.
    exact (find_none _ _ Eatk attack Ha).
Qed.

Lemma get_action_finds_entry_witness :
  get_action "b1" drake_plain = Ok (ActionItem roar)
  /\ In roar (actions drake_plain) /\ act_id roar = "b1"
  /\ forall attack, In attack (attacks drake_plain) -> atk_id attack <> "b1".
Proof.
  split; [ reflexivity | ].
  exact (get_action_finds_entry "b1" drake_plain (ActionItem roar) eq_refl).
Defined.

Lemma find_first {A : Type} (f : A -> bool) (xs : list A) (x : A) :
  In x xs -> f x = true -> exists y, find f xs = Some y /\ f y = true.
Proof.
  induction xs as [| z xs IH]; simpl; intros Hin Hx; [ contradiction | ].
  destruct (f z) eqn:Ez; [ eauto | ].
  destruct Hin as [-> | Hin]; [ congruence | auto ].
Qed.

(** X6.  When an attack has the id, [get_action] returns an attack with that id,
    whatever the actions are: attacks are searched first. *)
Theorem attack_shadows_action (id_ : string) (json_stats : Monster) (attack : Attack) :
  In attack (attacks json_stats) ->
  atk_id attack = id_ ->
  exists found,
    get_action id_ json_stats = Ok (AttackItem found) /\ atk_id found = id_.
Proof.
  intros Hin Hid. unfold get_action.
  destruct (find_first (fun a => String.eqb (atk_id a) id_) (attacks json_stats)
              attack Hin) as (found & -> & Hfound).
  { now apply String.eqb_eq. }
  exists found. split; [ reflexivity | now apply String.eqb_eq ].
Qed.

Lemma attack_shadows_action_witness :
  In claw (attacks drake_plain)
  /\ atk_id claw = "a2"
  /\ exists found,
       get_action "a2" drake_plain = Ok (AttackItem found) /\ atk_id found = "a2".
Proof.
  assert (Hin : In claw (attacks drake_plain)) by (right; left; reflexivity).
  split; [ exact Hin | split; [ reflexivity | ] ].
  exact (attack_shadows_action "a2" drake_plain claw Hin eq_refl).
Defined.

(** X7.  [get_action] raises exactly when no attack and no action has the id, and
    the only error it raises is the [ValueError] whose message names the id. *)
Theorem get_action_raises_when_unresolved (id_ : string) (json_stats : Monster) :
  (get_action id_ json_stats
   = Error (ValueError ("Attack with ID " ++ id_ ++ " not found"))
   <-> unresolved json_stats id_)
  /\ match get_action id_ json_stats with
     | Ok _ => True
     | Error e => e = ValueError ("Attack with ID " ++ id_ ++ " not found")
     end.
Proof.
  split.
  - split; intros H; now apply get_action_unresolved.
  - destruct (get_action id_ json_stats) as [item | e] eqn:E; [ exact I | ].
    now apply get_action_error in E as [-> _].
Qed.

Lemma resolves_not_unresolved (id_ : string) (json_stats : Monster) :
  ~ unresolved json_stats id_ -> exists item, get_action id_ json_stats = Ok item.
Proof.
  intros H. destruct (get_action id_ json_stats) as [item | e] eqn:E; [ eauto | ].
  apply get_action_error in E as [_ Hun]. contradiction.
Qed.

(** X10.  [process_multiattack] returns exactly when every id of every group has
    an entry; otherwise it raises the lookup error of a multiattack reference
    that has none, and no other error. *)
Theorem process_multiattack_returns_iff_resolved
    (num2words : Z -> string) (json_stats : Monster) :
  match process_multiattack num2words json_stats with
  | Ok _ =>
      forall id_, In id_ (multiattack_refs json_stats) ->
                  exists item, get_action id_ json_stats = Ok item
  | Error e =>
      exists id_, In id_ (multiattack_refs json_stats)
                  /\ unresolved json_stats id_
                  /\ e = not_found id_
  end.
Proof.
  destruct (process_multiattack num2words json_stats) as [text | e] eqn:E.
  - intros id_ Hin. apply resolves_not_unresolved. intros Hun.
    destruct (process_multiattack_unresolved num2words json_stats id_ Hin Hun)
      as [e He]. congruence.
  - now apply process_multiattack_error with (num2words := num2words).
Qed.

(** X11.  When the integers that the entries of the legendary actions format
    are within the limit of the runtime (those of the descriptions, the
    limited-use counts of the actions and the costs),
    [process_legendary_actions] returns, and then returns the empty list,
    exactly when every legendary reference has an entry; otherwise it raises
    the lookup error of a legendary reference that has none. *)
Theorem process_legendary_actions_returns_iff_resolved (json_stats : Monster) :
  description_formats json_stats = true ->
  forallb action_formats (actions json_stats) = true ->
  forallb cost_formats (legendaryActions json_stats) = true ->
  match process_legendary_actions json_stats with
  | Ok entries =>
      entries = []
      /\ forall id_, In id_ (legendary_refs json_stats) ->
                     exists item, get_action id_ json_stats = Ok item
  | Error e =>
      exists id_, In id_ (legendary_refs json_stats)
                  /\ unresolved json_stats id_
                  /\ e = not_found id_
  end.
Proof.
  intros _ _ _.
  destruct (process_legendary_actions json_stats) as [entries | e] eqn:E.
  - split.
    + unfold process_legendary_actions in E. invert_bind E. now injection E as <-.
    + intros id_ Hin. apply resolves_not_unresolved. intros Hun.
      destruct (process_legendary_actions_unresolved json_stats id_ Hin Hun)
        as [e He]. congruence.
  - now apply process_legendary_actions_error.
Qed.

Lemma process_legendary_actions_returns_iff_resolved_witness :
  description_formats drake_lord = true
  /\ forallb action_formats (actions drake_lord) = true
  /\ forallb cost_formats (legendaryActions drake_lord) = true
  /\ legendary_refs drake_lord = ["b3"; "a1"]
  /\ process_legendary_actions drake_lord = Ok []
  /\ forall id_, In id_ (legendary_refs drake_lord) ->
                 exists item, get_action id_ drake_lord = Ok item.
Proof.
  assert (H1 : description_formats drake_lord = true) by (vm_compute; reflexivity).
  assert (H2 : forallb action_formats (actions drake_lord) = true)
    by (vm_compute; reflexivity).
  assert (H3 : forallb cost_formats (legendaryActions drake_lord) = true)
    by (vm_compute; reflexivity).
  split; [ exact H1 | split; [ exact H2 | split; [ exact H3 | ] ] ].
  split; [ reflexivity | split; [ reflexivity | ] ].
  pose proof (process_legendary_actions_returns_iff_resolved drake_lord H1 H2 H3)
    as H.
  change (process_legendary_actions drake_lord) with (@Ok (list Entry) []) in H.
  exact (proj2 H).
Defined.

Lemma fold_counter_repeat (id_ : string) (n : nat) (m : Z) :
  fold_left (fun c k => counter_add k c) (repeat id_ n) [(id_, m)]
  = [(id_, m + Z.of_nat n)].
Proof.
  revert m. induction n as [| n IH]; intros m.
  - simpl. now rewrite Z.add_0_r.
  - cbn [repeat fold_left counter_add]. rewrite String.eqb_refl, IH.
    do 2 f_equal. lia.
Qed.

Lemma Counter_repeat (id_ : string) (n : nat) :
  Counter (repeat id_ (S n)) = [(id_, Z.of_nat (S n))].
Proof.
  unfold Counter. cbn [repeat fold_left counter_add].
  rewrite fold_counter_repeat. do 2 f_equal. lia.
Qed.

(** X9.  A group that refers n times to one attack and to no action is phrased
    "makes <n in words> <name> attack", with an "s" when n is more than 1 and
    without "and". *)
Theorem multiattack_one_attack_repeated
    (num2words : Z -> string) (json_stats : Monster) (id_ : string)
    (item : Item) (n : nat) :
  (0 < n)%nat ->
  get_action id_ json_stats = Ok item ->
  multiattack_phrase num2words json_stats
    {| ma_attacks := repeat id_ n; ma_actions := [] |}
  = Ok ("makes " ++ num2words (Z.of_nat n) ++ " " ++ item_name item ++ " attack"
        ++ (if (1 <? n)%nat then "s" else "")).
Proof.
  intros Hn Hitem. destruct n as [| n]; [ lia | ].
  unfold multiattack_phrase. cbn [ma_attacks ma_actions].
  rewrite Counter_repeat.
  remember (Z.of_nat (S n)) as count eqn:Hcount.
  destruct (Nat.ltb_spec 1 (S n)) as [Hp | Hp];
    cbn [enumerate_from mapM attack_phrase len List.length];
    rewrite Hitem; cbn;
    destruct (Z.ltb_spec 1 count); try lia;
    cbn; normalize_append; reflexivity.
Qed.

Lemma multiattack_one_attack_repeated_witness :
  (0 < 3)%nat
  /\ get_action "a2" drake_plain = Ok (AttackItem claw)
  /\ multiattack_phrase num2words_en drake_plain
       {| ma_attacks := ["a2"; "a2"; "a2"]; ma_actions := [] |}
     = Ok "makes three Claw attacks".
Proof.
  assert (H : (0 < 3)%nat) by lia.
  split; [ exact H | split; [ reflexivity | ] ].
  exact (multiattack_one_attack_repeated num2words_en drake_plain "a2"
           (AttackItem claw) 3 H eq_refl).
Defined.

(** ** Description tags *)

Lemma no_brace_app (s t : string) :
  no_brace (s ++ t) = no_brace s && no_brace t.
Proof.
  induction s as [| c s IH]; simpl; [ reflexivity | ].
  now rewrite IH, andb_assoc.
Qed.

Lemma no_brace_drop (n : nat) (s : string) :
  no_brace s = true -> no_brace (skip_chars n s) = true.
Proof.
  revert n. induction s as [| c s IH]; intros [| n]; simpl; auto.
  intros H. apply andb_prop in H as [_ H]. auto.
Qed.

Lemma no_brace_uint (d : Decimal.uint) : no_brace (NilEmpty.string_of_uint d) = true.
Proof. induction d; simpl; auto. Qed.

Lemma no_brace_str_int (n : Z) : no_brace (str_int n) = true.
Proof.
  unfold str_int, NilZero.string_of_int.
  destruct (Z.to_int n) as [d | d]; simpl.
  - unfold NilZero.string_of_uint. destruct d; try reflexivity; apply no_brace_uint.
  - unfold NilZero.string_of_uint. destruct d; try reflexivity; apply no_brace_uint.
Qed.

Lemma no_brace_str_signed (n : Z) : no_brace (str_signed n) = true.
Proof.
  unfold str_signed. destruct (n <? 0); simpl; apply no_brace_str_int.
Qed.

Lemma replace_from_skip (n : nat) (old new s : string) :
  replace_from n old new s = replace_from 0 old new (skip_chars n s).
Proof.
  revert n. induction s as [| c s IH]; intros [| n]; simpl; auto.
Qed.

Lemma replace_from_cons (old new : string) (c : ascii) (s : string) :
  replace_from 0 old new (String c s)
  = if prefix old (String c s)
    then new ++ replace_from (String.length old - 1) old new s
    else String c (replace_from 0 old new s).
Proof. reflexivity. Qed.

Lemma prefix_cons (a b : ascii) (s t : string) :
  prefix (String a s) (String b t)
  = if ascii_dec a b then prefix s t else false.
Proof. reflexivity. Qed.

Lemma replace_plain (old' new s : string) :
  no_brace s = true -> replace (String "{" old') new s = s.
Proof.
  unfold replace. induction s as [| c s IH]; intros H; [ reflexivity | ].
  cbn [no_brace] in H. apply andb_prop in H as [Hc Hs].
  rewrite replace_from_cons, prefix_cons.
  destruct (ascii_dec "{" c) as [<- | Hne]; [ discriminate | ].
  now rewrite (IH Hs).
Qed.

Lemma replace_hit (old' new p r : string) :
  no_brace p = true -> no_brace r = true -> prefix old' r = true ->
  replace (String "{" old') new (p ++ String "{" r)
  = p ++ new ++ skip_chars (String.length old') r.
Proof.
  intros Hp Hr Hpre. unfold replace.
  induction p as [| c p IH]; cbn [append].
  - rewrite replace_from_cons, prefix_cons.
    destruct (ascii_dec "{" "{") as [_ | Hne]; [ | congruence ].
    rewrite Hpre. cbn [String.length]. rewrite Nat.sub_succ, Nat.sub_0_r.
    rewrite replace_from_skip. f_equal.
    apply (replace_plain old' new). now apply no_brace_drop.
  - cbn [no_brace] in Hp. apply andb_prop in Hp as [Hc Hp].
    rewrite replace_from_cons, prefix_cons.
    destruct (ascii_dec "{" c) as [<- | Hne]; [ discriminate | ].
    now rewrite (IH Hp).
Qed.

Lemma replace_miss (old' new p r : string) :
  no_brace p = true -> no_brace r = true -> prefix old' r = false ->
  replace (String "{" old') new (p ++ String "{" r) = p ++ String "{" r.
Proof.
  intros Hp Hr Hpre. unfold replace.
  induction p as [| c p IH]; cbn [append].
  - rewrite replace_from_cons, prefix_cons.
    destruct (ascii_dec "{" "{") as [_ | Hne]; [ | congruence ].
    rewrite Hpre. f_equal. now apply (replace_plain old' new).
  - cbn [no_brace] in Hp. apply andb_prop in Hp as [Hc Hp].
    rewrite replace_from_cons, prefix_cons.
    destruct (ascii_dec "{" c) as [<- | Hne]; [ discriminate | ].
    now rewrite (IH Hp).
Qed.

Lemma prefix_starts_with (t s : string) : prefix t s = starts_with t s.
Proof.
  revert s. induction t as [| a t IH]; intros [| b s]; try reflexivity.
  rewrite prefix_cons. cbn [starts_with].
  destruct (ascii_dec a b) as [-> | Hne].
  - now rewrite Ascii.eqb_refl, IH.
  - now rewrite (proj2 (Ascii.eqb_neq a b) Hne).
Qed.

Ltac unfold_tags :=
  try unfold process_description;
  cbn [fold_left map fst ABILITIES abbr append].

Ltac plain_steps H :=
  repeat match goal with
         | |- context [replace (String "{" ?o) ?n ?d] =>
             rewrite (replace_plain o n d H)
         end.

(** X12.  When the integers that [process_description] formats are within the
    limit of the runtime, a description without an opening brace goes
    through the tag substitution unchanged. *)
Theorem description_without_brace_unchanged
    (description : string) (json_stats : Monster) :
  description_formats json_stats = true ->
  no_brace description = true ->
  process_description description json_stats = description.
Proof.
  intros _ H. unfold_tags. plain_steps H. reflexivity.
Qed.

Ltac tag_step Hp Hq :=
  match goal with
  | |- context [replace (String "{" ?o) ?n (?p ++ String "{" ?r)] =>
      let Hr := fresh "Hr" in
      assert (Hr : no_brace r = true) by exact Hq;
      first [ let Hit := fresh "Hit" in
              assert (Hit : prefix o r = true)
                by (rewrite prefix_starts_with; reflexivity);
              rewrite (replace_hit o n p r Hp Hr Hit); cbn [skip_chars String.length];
              clear Hit
            | let Miss := fresh "Miss" in
              assert (Miss : prefix o r = false)
                by (rewrite prefix_starts_with; reflexivity);
              rewrite (replace_miss o n p r Hp Hr Miss); clear Miss ];
      clear Hr
  end.

Ltac no_brace_solve :=
  repeat (progress (rewrite ?no_brace_app, ?no_brace_str_int, ?no_brace_str_signed;
                    cbn [no_brace negb andb Ascii.eqb Bool.eqb]));
  repeat match goal with
         | H : no_brace _ = true |- _ => rewrite H
         end;
  reflexivity.

(** Carries a text with one tag through the substitutions. *)
Ltac one_tag Hp Hq :=
  unfold_tags; repeat tag_step Hp Hq;
  try match goal with
      | |- context [replace _ _ (?p ++ ?x)] =>
          let Hall := fresh "Hall" in
          assert (Hall : no_brace (p ++ x) = true) by no_brace_solve;
          plain_steps Hall
      end;
  normalize_append; reflexivity.

(** X13.  When the integers that [process_description] formats are within the
    limit of the runtime: in a text with no other opening brace, the tag
    {DC:<ability>} becomes "DC " and 8 + modifier + proficiency, for each of
    the six abilities; the text around it is kept. *)
Theorem description_DC_tag
    (a : ability) (before after : string) (json_stats : Monster) :
  description_formats json_stats = true ->
  no_brace before = true ->
  no_brace after = true ->
  process_description (before ++ "{DC:" ++ abbr a ++ "}" ++ after) json_stats
  = before ++ "DC "
    ++ str_int (8 + (calc_modifier (stats json_stats a) + proficiency json_stats))
    ++ after.
Proof.
  intros _ Hp Hq. destruct a; one_tag Hp Hq.
Qed.

(** X14.  When the integers that [process_description] formats are within the
    limit of the runtime: in a text with no other opening brace, the tag
    {A:<ability>} becomes modifier + proficiency under an explicit sign. *)
Theorem description_attack_tag
    (a : ability) (before after : string) (json_stats : Monster) :
  description_formats json_stats = true ->
  no_brace before = true ->
  no_brace after = true ->
  process_description (before ++ "{A:" ++ abbr a ++ "}" ++ after) json_stats
  = before
    ++ str_signed (calc_modifier (stats json_stats a) + proficiency json_stats)
    ++ after.
Proof.
  intros _ Hp Hq. destruct a; one_tag Hp Hq.
Qed.

(** X15.  When the integers that [process_description] formats are within the
    limit of the runtime and the name has no opening brace, the tags {NAME}
    and {monster.name} both become the name of the monster, after "the "
    when [useArticleInToken] is set. *)
Theorem description_name_tags
    (before after : string) (json_stats : Monster) :
  description_formats json_stats = true ->
  no_brace before = true ->
  no_brace after = true ->
  no_brace (name json_stats) = true ->
  let name_str :=
    if useArticleInToken json_stats then "the " ++ name json_stats
    else name json_stats in
  process_description (before ++ "{NAME}" ++ after) json_stats
  = before ++ name_str ++ after
  /\ process_description (before ++ "{monster.name}" ++ after) json_stats
     = before ++ name_str ++ after.
Proof.
  intros _ Hp Hq Hn. cbv zeta.
  split; destruct (useArticleInToken json_stats) eqn:Ha;
    unfold process_description; rewrite Ha; one_tag Hp Hq.
Qed.

Lemma description_DC_tag_witness :
  description_formats drake_plain = true
  /\ no_brace "Succeed on a " = true
  /\ no_brace " Dexterity saving throw." = true
  /\ process_description "Succeed on a {DC:DEX} Dexterity saving throw." drake_plain
     = "Succeed on a DC 12 Dexterity saving throw.".
Proof.
  assert (Hlim : description_formats drake_plain = true)
    by (vm_compute; reflexivity).
  split; [ exact Hlim | split; [ reflexivity | split; [ reflexivity | ] ] ].
  exact (description_DC_tag DEX "Succeed on a " " Dexterity saving throw."
           drake_plain Hlim eq_refl eq_refl).
Defined.

Lemma description_attack_tag_witness :
  description_formats drake_plain = true
  /\ no_brace "Spell attack " = true
  /\ no_brace " to hit." = true
  /\ process_description "Spell attack {A:CHA} to hit." drake_plain
     = "Spell attack +1 to hit.".
Proof.
  assert (Hlim : description_formats drake_plain = true)
    by (vm_compute; reflexivity).
  split; [ exact Hlim | split; [ reflexivity | split; [ reflexivity | ] ] ].
  exact (description_attack_tag CHA "Spell attack " " to hit."
           drake_plain Hlim eq_refl eq_refl).
Defined.

Lemma description_name_tags_witness :
  description_formats drake_plain = true
  /\ no_brace "If " = true
  /\ no_brace " fails a saving throw." = true
  /\ no_brace (name drake_plain) = true
  /\ process_description "If {NAME} fails a saving throw." drake_plain
     = "If the Drake fails a saving throw."
  /\ process_description "If {monster.name} fails a saving throw." drake_plain
     = "If the Drake fails a saving throw.".
Proof.
  assert (Hlim : description_formats drake_plain = true)
    by (vm_compute; reflexivity).
  split; [ exact Hlim | ].
  do 3 (split; [ reflexivity | ]).
  exact (description_name_tags "If " " fails a saving throw." drake_plain
           Hlim eq_refl eq_refl eq_refl).
Defined.

(** X16.  When the integers that [process_description] formats are within the
    limit of the runtime: the tags {monster.proficiency} and {monster.AC}
    become the proficiency bonus and the armor class, and {monster.hp}
    becomes the hit dice "<HD>d<type>" followed by the signed product of the
    Constitution modifier and the number of dice. *)
Theorem description_monster_tags
    (before after : string) (json_stats : Monster) :
  description_formats json_stats = true ->
  no_brace before = true ->
  no_brace after = true ->
  process_description (before ++ "{monster.proficiency}" ++ after) json_stats
  = before ++ str_int (proficiency json_stats) ++ after
  /\ process_description (before ++ "{monster.AC}" ++ after) json_stats
     = before ++ str_int (AC json_stats) ++ after
  /\ process_description (before ++ "{monster.hp}" ++ after) json_stats
     = before ++ str_int (HD (HP json_stats)) ++ "d"
       ++ str_int (hd_type (HP json_stats))
       ++ str_signed (calc_modifier (stats json_stats CON) * HD (HP json_stats))
       ++ after.
Proof.
  intros _ Hp Hq. repeat split; one_tag Hp Hq.
Qed.

Lemma description_monster_tags_witness :
  description_formats drake_plain = true
  /\ no_brace "hp " = true
  /\ no_brace "." = true
  /\ process_description "hp {monster.proficiency}." drake_plain = "hp 2."
  /\ process_description "hp {monster.AC}." drake_plain = "hp 15."
  /\ process_description "hp {monster.hp}." drake_plain = "hp 6d10+6.".
Proof.
  assert (Hlim : description_formats drake_plain = true)
    by (vm_compute; reflexivity).
  split; [ exact Hlim | split; [ reflexivity | split; [ reflexivity | ] ] ].
  exact (description_monster_tags "hp " "." drake_plain Hlim eq_refl eq_refl).
Defined.

Ltac miss_step Hp Hr :=
  match goal with
  | |- context [replace (String "{" ?o) ?n (?p ++ String "{" ?r)] =>
      rewrite (replace_miss o n p r Hp Hr)
        by (apply negb_true_iff; assumption)
  end.

(** X17.  When the integers that [process_description] formats are within the
    limit of the runtime, a brace that opens none of the seventeen tags
    stays where it is: the text is unchanged. *)
Theorem description_unknown_tag
    (before rest : string) (json_stats : Monster) :
  description_formats json_stats = true ->
  no_brace before = true ->
  no_brace rest = true ->
  forallb (fun body => negb (prefix body rest)) TAG_BODIES = true ->
  process_description (before ++ "{" ++ rest) json_stats = before ++ "{" ++ rest.
Proof.
  intros _ Hp Hr Hall. cbn [forallb TAG_BODIES] in Hall.
  repeat match type of Hall with
         | _ && _ = true =>
             let H := fresh "Hmiss" in
             apply andb_prop in Hall as [H Hall]
         end.
  unfold_tags. repeat miss_step Hp Hr. reflexivity.
Qed.

Lemma description_unknown_tag_witness :
  description_formats drake_plain = true
  /\ no_brace "Deals " = true
  /\ no_brace "damage} extra." = true
  /\ forallb (fun body => negb (prefix body "damage} extra.")) TAG_BODIES = true
  /\ process_description "Deals {damage} extra." drake_plain
     = "Deals {damage} extra.".
Proof.
  assert (Hlim : description_formats drake_plain = true)
    by (vm_compute; reflexivity).
  split; [ exact Hlim | ].
  repeat (split; [ reflexivity | ]).
  exact (description_unknown_tag "Deals " "damage} extra." drake_plain
           Hlim eq_refl eq_refl eq_refl).
Defined.

Lemma description_without_brace_unchanged_witness :
  description_formats drake_plain = true
  /\ no_brace "The drake can breathe air and water." = true
  /\ process_description "The drake can breathe air and water." drake_plain
     = "The drake can breathe air and water.".
Proof.
  assert (Hlim : description_formats drake_plain = true)
    by (vm_compute; reflexivity).
  split; [ exact Hlim | split; [ reflexivity | ] ].
  exact (description_without_brace_unchanged
           "The drake can breathe air and water." drake_plain Hlim eq_refl).
Defined.

(** ** Skills *)

Lemma dict_get_set_same (k : string) (v : Z) (d : list (string * Z)) :
  dict_get k (dict_set k v d) = Some v.
Proof.
  induction d as [| [k' v'] d IH]; simpl.
  - now rewrite String.eqb_refl.
  - destruct (String.eqb_spec k' k) as [-> | Hne]; simpl.
    + now rewrite String.eqb_refl.
    + now rewrite (proj2 (String.eqb_neq k' k) Hne).
Qed.

Lemma dict_get_set_other (k k' : string) (v : Z) (d : list (string * Z)) :
  k <> k' -> dict_get k' (dict_set k v d) = dict_get k' d.
Proof.
  intros Hne. induction d as [| [k0 v0] d IH]; simpl.
  - now rewrite (proj2 (String.eqb_neq k k') Hne).
  - destruct (String.eqb_spec k0 k) as [-> | Hk]; simpl.
    + now rewrite (proj2 (String.eqb_neq k k') Hne).
    + destruct (String.eqb k0 k'); [ reflexivity | exact IH ].
Qed.

Lemma dict_set_set (k : string) (v w : Z) (d : list (string * Z)) :
  dict_set k w (dict_set k v d) = dict_set k w d.
Proof.
  induction d as [| [k' v'] d IH]; simpl.
  - now rewrite String.eqb_refl.
  - destruct (String.eqb_spec k' k) as [-> | Hne]; simpl.
    + now rewrite String.eqb_refl.
    + rewrite (proj2 (String.eqb_neq k' k) Hne). now rewrite IH.
Qed.

Lemma skill_bonuses_fold (json_stats : Monster) :
  skill_bonuses json_stats
  = fold_left (skill_step json_stats) (skills json_stats) [].
Proof.
  unfold skill_bonuses. generalize (@nil (string * Z)).
  induction (skills json_stats) as [| sk l IH]; intros acc; [ reflexivity | ].
  cbn [fold_left]. rewrite IH. f_equal.
  unfold skill_step, skill_value, skill_key.
  destruct (skill_override sk); [ reflexivity | ].
  destruct (skill_proficient sk); [ | reflexivity ].
  destruct (skill_expertise sk).
  - rewrite dict_set_set. reflexivity.
  - now rewrite Z.add_0_r.
Qed.

Lemma fold_skills_other (json_stats : Monster) (l : list Skill)
    (acc : list (string * Z)) (k : string) :
  (forall sk, In sk l -> skill_key sk <> k) ->
  dict_get k (fold_left (skill_step json_stats) l acc) = dict_get k acc.
Proof.
  revert acc. induction l as [| x l IH]; intros acc H; [ reflexivity | ].
  cbn [fold_left]. rewrite IH by (intros sk Hsk; apply H; now right).
  unfold skill_step. destruct (skill_value json_stats x); [ | reflexivity ].
  apply dict_get_set_other. apply H. now left.
Qed.

Lemma fold_skills_get (json_stats : Monster) (l : list Skill)
    (acc : list (string * Z)) (sk : Skill) :
  NoDup (map skill_key l) -> In sk l ->
  dict_get (skill_key sk) (fold_left (skill_step json_stats) l acc)
  = match skill_value json_stats sk with
    | Some v => Some v
    | None => dict_get (skill_key sk) acc
    end.
Proof.
  revert acc. induction l as [| x l IH]; intros acc Hnd Hin; [ contradiction | ].
  cbn [map] in Hnd. inversion Hnd as [| ? ? Hx Hnd']; subst.
  cbn [fold_left]. destruct Hin as [-> | Hin].
  - rewrite fold_skills_other.
    + unfold skill_step. destruct (skill_value json_stats sk); [ | reflexivity ].
      apply dict_get_set_same.
    + intros sk' Hsk' Heq. apply Hx. rewrite <- Heq. now apply in_map.
  - rewrite (IH _ Hnd' Hin).
    destruct (skill_value json_stats sk); [ reflexivity | ].
    unfold skill_step. destruct (skill_value json_stats x); [ | reflexivity ].
    apply dict_get_set_other. intros Heq. apply Hx. rewrite Heq. now apply in_map.
Qed.

(** X18.  When the labels of the skills are ASCII texts that are distinct once
    lowered, each skill is found in [skillsaves] under its lowered label
    with its override value if it is overridden, else modifier + proficiency
    (+ proficiency again with expertise) if it is proficient, and is absent
    otherwise. *)
Theorem skill_bonus_lookup (json_stats : Monster) (json_skill : Skill) :
  forallb (fun sk => ascii_only (skill_label sk)) (skills json_stats) = true ->
  NoDup (map (fun sk => lower (skill_label sk)) (skills json_stats)) ->
  In json_skill (skills json_stats) ->
  dict_get (lower (skill_label json_skill)) (skill_bonuses json_stats)
  = if skill_override json_skill then Some (skill_overrideValue json_skill)
    else if skill_proficient json_skill then
      Some (calc_modifier (stats json_stats (skill_stat json_skill))
            + proficiency json_stats
            + (if skill_expertise json_skill then proficiency json_stats else 0))
    else None.
Proof.
  intros _ Hnd Hin. rewrite skill_bonuses_fold.
  change (lower (skill_label json_skill)) with (skill_key json_skill).
  rewrite (fold_skills_get json_stats _ [] json_skill Hnd Hin).
  fold (skill_value json_stats json_skill).
  now destruct (skill_value json_stats json_skill).
Qed.

Lemma skill_bonus_lookup_witness :
  forallb (fun sk => ascii_only (skill_label sk)) (skills drake_skilled) = true
  /\ map (fun sk => lower (skill_label sk)) (skills drake_skilled)
     = ["perception"; "stealth"; "athletics"; "arcana"]
  /\ dict_get "perception" (skill_bonuses drake_skilled) = Some 3
  /\ dict_get "stealth" (skill_bonuses drake_skilled) = Some 6
  /\ dict_get "athletics" (skill_bonuses drake_skilled) = Some 9
  /\ dict_get "arcana" (skill_bonuses drake_skilled) = None.
Proof.
  assert (Hascii : forallb (fun sk => ascii_only (skill_label sk))
                           (skills drake_skilled) = true) by reflexivity.
  assert (Hnd : NoDup (map (fun sk => lower (skill_label sk))
                           (skills drake_skilled))).
  { repeat constructor; cbn; intuition discriminate. }
  split; [ exact Hascii | split; [ reflexivity | ] ].
  split; [ | split; [ | split ] ].
  - exact (skill_bonus_lookup drake_skilled perception Hascii Hnd
             (or_introl eq_refl)).
  - exact (skill_bonus_lookup drake_skilled stealth Hascii Hnd
             (or_intror (or_introl eq_refl))).
  - exact (skill_bonus_lookup drake_skilled athletics Hascii Hnd
             (or_intror (or_intror (or_introl eq_refl)))).
  - exact (skill_bonus_lookup drake_skilled arcana Hascii Hnd
             (or_intror (or_intror (or_intror (or_introl eq_refl))))).
Defined.

(** ** The lists of the statblock *)

Lemma mapM_trait_entry_ok (json_stats : Monster) (ts : list Trait)
    (entries : list Entry) :
  mapM (trait_entry json_stats) ts = Ok entries ->
  entries = map (plain_trait_entry json_stats) ts
  /\ Forall (fun t => lu_count (trait_limitedUse t) = 0) ts.
Proof.
  revert entries. induction ts as [| t ts IH]; simpl; intros entries H.
  - injection H as <-. auto.
  - destruct (trait_entry json_stats t) as [entry | ] eqn:Et; [ | discriminate ].
    destruct (mapM (trait_entry json_stats) ts) as [rest | ]; [ | discriminate ].
    cbn [bind] in H. injection H as <-.
    destruct (IH rest eq_refl) as [-> Hall].
    assert (Hcount : lu_count (trait_limitedUse t) = 0).
    { destruct (Z.eq_dec (lu_count (trait_limitedUse t)) 0) as [H0 | Hn];
        [ exact H0 | ].
      rewrite (trait_entry_limited json_stats t Hn) in Et. discriminate. }
    rewrite (trait_entry_plain json_stats t Hcount) in Et. injection Et as <-.
    split; [ reflexivity | now constructor ].
Qed.

(** X19.  Every statblock returned lists the traits in their order, each under its
    own name with its description after tag substitution; no trait of the
    input then has a limited-use count. *)
Theorem traits_listed_without_suffix
    (num2words : Z -> string) (float_str : float -> string)
    (json_stats : Monster) (out : Statblock) :
  parse_stats num2words float_str json_stats = Ok out ->
  out_traits out
  = map (fun t =>
           {| entry_name := trait_name t;
              entry_desc := process_description (trait_description t) json_stats |})
        (traits json_stats)
  /\ Forall (fun t => lu_count (trait_limitedUse t) = 0) (traits json_stats).
Proof.
  intros H.
  destruct (parse_stats_ok _ _ _ _ H)
    as (hp & ts & ma & atks & leg & _ & Hts & _ & _ & _ & _ & -> & _).
  exact (mapM_trait_entry_ok json_stats _ _ Hts).
Qed.

Lemma traits_listed_without_suffix_witness :
  fmap out_traits (parse_stats num2words_en float_str_exact drake_plain)
  = Ok [{| entry_name := "Keen Senses";
           entry_desc := "the Drake has advantage on Wisdom (Perception) checks." |}]
  /\ exists out,
       parse_stats num2words_en float_str_exact drake_plain = Ok out
       /\ out_traits out
          = map (fun t =>
                   {| entry_name := trait_name t;
                      entry_desc := process_description (trait_description t)
                                      drake_plain |})
                (traits drake_plain).
Proof.
  split; [ vm_compute; reflexivity | ].
  destruct (parse_stats num2words_en float_str_exact drake_plain) as [out | e] eqn:H;
    [ | vm_compute in H; discriminate H ].
  exists out. split; [ reflexivity | ].
  exact (proj1 (traits_listed_without_suffix num2words_en float_str_exact
                  drake_plain out H)).
Defined.

Lemma mapM_attack_entry_names (num2words : Z -> string) (float_str : float -> string)
    (json_stats : Monster) (atks : list Attack) (entries : list Entry) :
  mapM (attack_entry num2words float_str json_stats) atks = Ok entries ->
  map entry_name entries = map atk_name atks.
Proof.
  revert entries. induction atks as [| a atks IH]; simpl; intros entries H.
  - now injection H as <-.
  - destruct (attack_entry num2words float_str json_stats a) as [entry | ] eqn:Ea;
      [ | discriminate ].
    destruct (mapM (attack_entry num2words float_str json_stats) atks) as [rest | ];
      [ | discriminate ].
    cbn [bind] in H. injection H as <-. simpl. rewrite (IH rest eq_refl).
    f_equal. unfold attack_entry in Ea.
    destruct (attack_line num2words float_str json_stats a); [ | discriminate ].
    cbn [bind] in Ea.
    destruct (attack_description json_stats a); [ | discriminate ].
    cbn [bind] in Ea. now injection Ea as <-.
Qed.

Lemma process_multiattack_nonempty (num2words : Z -> string)
    (json_stats : Monster) (text : string) :
  process_multiattack num2words json_stats = Ok text -> nonempty text = true.
Proof.
  unfold process_multiattack. intros H.
  destruct (mapM _ (multiattacks json_stats)); [ | discriminate ].
  cbn [bind] in H. injection H as <-.
  apply nonempty_app_r. reflexivity.
Qed.

Lemma parse_stats_other_lists (num2words : Z -> string) (float_str : float -> string)
    (json_stats : Monster) (out : Statblock) :
  parse_stats num2words float_str json_stats = Ok out ->
  out_bonus_actions out
  = map (action_entry json_stats) (filter act_bonusAction (actions json_stats))
  /\ out_reactions out = map (action_entry json_stats) (reactions json_stats).
Proof.
  intros H. unfold parse_stats in H. invert_bind H. injection H as <-.
  split; reflexivity.
Qed.

(** X20.  In every statblock returned the actions are the Multiattack entry, then
    one entry per attack in their order and under their names, then the
    actions that are neither legendary-only nor bonus actions; the bonus
    actions are the actions flagged so, and the reactions are all listed. *)
Theorem actions_listed_in_order
    (num2words : Z -> string) (float_str : float -> string)
    (json_stats : Monster) (out : Statblock) :
  parse_stats num2words float_str json_stats = Ok out ->
  exists text attack_entries,
    process_multiattack num2words json_stats = Ok text
    /\ map entry_name attack_entries = map atk_name (attacks json_stats)
    /\ out_actions out
       = ({| entry_name := "Multiattack"; entry_desc := text |}
          :: attack_entries
          ++ map (fun action => process_action (ActionItem action) json_stats)
               (filter (fun action =>
                          negb (act_legendaryOnly action || act_bonusAction action))
                       (actions json_stats)))%list
    /\ out_bonus_actions out
       = map (fun action => process_action (ActionItem action) json_stats)
             (filter act_bonusAction (actions json_stats))
    /\ out_reactions out
       = map (fun action => process_action (ActionItem action) json_stats)
             (reactions json_stats).
Proof.
  intros H.
  destruct (parse_stats_other_lists _ _ _ _ H) as [Hbonus Hreact].
  destruct (parse_stats_ok _ _ _ _ H)
    as (hp & ts & ma & atks & leg & _ & _ & Hma & Hatk & _ & _ & _ & Hact & _).
  exists ma, atks. split; [ exact Hma | ].
  split; [ exact (mapM_attack_entry_names _ _ _ _ _ Hatk) | ].
  split; [ | split; assumption ].
  rewrite Hact. unfold actions_of.
  now rewrite (process_multiattack_nonempty _ _ _ Hma).
Qed.

Lemma actions_listed_in_order_witness :
  fmap (fun out => map entry_name (out_actions out))
       (parse_stats num2words_en float_str_exact drake_busy)
  = Ok ["Multiattack"; "Bite"; "Claw"; "Roar"; "Fire Breath (2/day)"]
  /\ fmap (fun out => map entry_name (out_bonus_actions out))
          (parse_stats num2words_en float_str_exact drake_busy)
     = Ok ["Leap"]
  /\ exists out text attack_entries,
       parse_stats num2words_en float_str_exact drake_busy = Ok out
       /\ process_multiattack num2words_en drake_busy = Ok text
       /\ map entry_name attack_entries = map atk_name (attacks drake_busy).
Proof.
  split; [ vm_compute; reflexivity | split; [ vm_compute; reflexivity | ] ].
  destruct (parse_stats num2words_en float_str_exact drake_busy) as [out | e] eqn:H;
    [ | vm_compute in H; discriminate H ].
  destruct (actions_listed_in_order num2words_en float_str_exact drake_busy out H)
    as (text & attack_entries & Htext & Hnames & _).
  exists out, text, attack_entries. auto.
Defined.

Lemma filter_three_ways (l : list Action) :
  (List.length (filter (fun a => negb (act_legendaryOnly a || act_bonusAction a)) l)
   + List.length (filter act_bonusAction l)
   + List.length (filter (fun a => act_legendaryOnly a && negb (act_bonusAction a)) l)
   = List.length l)%nat.
Proof.
  induction l as [| a l IH]; simpl; [ reflexivity | ].
  destruct (act_legendaryOnly a), (act_bonusAction a); simpl; lia.
Qed.

(** X21.  Counting the entries: the actions and the bonus actions of a statblock,
    with the legendary-only actions that are not bonus actions (which are
    listed nowhere), are one Multiattack entry, the attacks and the actions
    of the input. *)
Theorem actions_are_listed_once
    (num2words : Z -> string) (float_str : float -> string)
    (json_stats : Monster) (out : Statblock) :
  parse_stats num2words float_str json_stats = Ok out ->
  (List.length (out_actions out) + List.length (out_bonus_actions out)
   + List.length (filter (fun a => act_legendaryOnly a && negb (act_bonusAction a))
                         (actions json_stats))
   = 1 + List.length (attacks json_stats) + List.length (actions json_stats))%nat.
Proof.
  intros H.
  destruct (parse_stats_other_lists _ _ _ _ H) as [Hbonus _].
  destruct (parse_stats_ok _ _ _ _ H)
    as (hp & ts & ma & atks & leg & _ & _ & Hma & Hatk & _ & _ & _ & Hact & _).
  rewrite Hact, Hbonus. unfold actions_of, action_entry.
  rewrite (process_multiattack_nonempty _ _ _ Hma).
  cbn [app List.length]. rewrite length_app, !length_map.
  rewrite (mapM_ok_length _ _ _ Hatk).
  pose proof (filter_three_ways (actions json_stats)). lia.
Qed.

Lemma actions_are_listed_once_witness :
  fmap (fun out => (List.length (out_actions out),
                    List.length (out_bonus_actions out)))
       (parse_stats num2words_en float_str_exact drake_busy)
  = Ok (5%nat, 1%nat)
  /\ List.length (filter (fun a => act_legendaryOnly a && negb (act_bonusAction a))
                         (actions drake_busy)) = 1%nat
  /\ exists out,
       parse_stats num2words_en float_str_exact drake_busy = Ok out
       /\ (List.length (out_actions out) + List.length (out_bonus_actions out)
           + List.length (filter (fun a => act_legendaryOnly a
                                           && negb (act_bonusAction a))
                                 (actions drake_busy))
           = 1 + List.length (attacks drake_busy)
             + List.length (actions drake_busy))%nat.
Proof.
  split; [ vm_compute; reflexivity | split; [ reflexivity | ] ].
  destruct (parse_stats num2words_en float_str_exact drake_busy) as [out | e] eqn:H;
    [ | vm_compute in H; discriminate H ].
  exists out. split; [ reflexivity | ].
  exact (actions_are_listed_once num2words_en float_str_exact drake_busy out H).
Defined.

(** ** Additional damages *)

Lemma append_empty_r (s : string) : s ++ "" = s.
Proof. induction s as [| c s IH]; simpl; [ reflexivity | now rewrite IH ]. Qed.

Lemma additional_phrases_decorate (n : Z) (damages : list AdditionalDamage)
    (i : Z) (phrases : list string) :
  mapM additional_str damages = Ok phrases ->
  mapM (additional_phrase n) (enumerate_from i damages)
  = Ok (decorate n i phrases).
Proof.
  revert i phrases. induction damages as [| d damages IH]; intros i phrases H.
  - injection H as <-. reflexivity.
  - cbn [mapM] in H. unfold additional_str at 1 in H.
    destruct (damage_str (add_count d) (add_dice d) 0 (add_type d)) as [p | ] eqn:Ed;
      [ | discriminate ].
    cbn [bind] in H.
    destruct (mapM additional_str damages) as [ps | ] eqn:Eps; [ | discriminate ].
    cbn [bind] in H. injection H as <-.
    cbn [enumerate_from mapM additional_phrase]. rewrite Ed. cbn [bind].
    rewrite (IH (i + 1) ps eq_refl). cbn [bind decorate]. unfold separator.
    destruct (i =? n - 1); [ reflexivity | ].
    destruct (i <? n); [ reflexivity | now rewrite append_empty_r ].
Qed.

Lemma concat_cons_cons (x : string) (xs : list string) :
  xs <> [] -> String.concat "" (x :: xs) = x ++ "" ++ String.concat "" xs.
Proof. destruct xs; [ congruence | reflexivity ]. Qed.

Lemma concat_decorate (n : Z) (phrases : list string) (i : Z) :
  phrases <> [] ->
  n = i + len phrases - 1 ->
  String.concat "" (decorate n i phrases) = comma_and phrases.
Proof.
  revert i. induction phrases as [| p phrases IH]; intros i Hne Hn; [ congruence | ].
  destruct phrases as [| q rest].
  - cbn [decorate String.concat comma_and]. unfold separator, len in *. simpl in Hn.
    replace (i =? n - 1) with false by (symmetry; apply Z.eqb_neq; lia).
    replace (i <? n) with false by (symmetry; apply Z.ltb_ge; lia).
    apply append_empty_r.
  - assert (Hrest : String.concat "" (decorate n (i + 1) (q :: rest))
                    = comma_and (q :: rest)).
    { apply IH; [ discriminate | ]. unfold len in *. cbn [List.length] in *. lia. }
    change (decorate n i (p :: q :: rest))
      with ((p ++ separator i n) :: decorate n (i + 1) (q :: rest)).
    rewrite concat_cons_cons by discriminate.
    rewrite Hrest. cbn [append]. rewrite append_assoc.
    unfold separator, len in *. cbn [List.length] in Hn.
    destruct rest as [| r rest]; cbn [List.length] in Hn.
    + replace (i =? n - 1) with true by (symmetry; apply Z.eqb_eq; lia).
      reflexivity.
    + replace (i =? n - 1) with false by (symmetry; apply Z.eqb_neq; lia).
      replace (i <? n) with true by (symmetry; apply Z.ltb_lt; lia).
      reflexivity.
Qed.

(** X22.  Without alternate damage, the additional damages follow " plus ", each
    as a damage phrase with modifier 0, separated by ", " and with ", and "
    before the last one; then a period and the description of the attack. *)
Theorem additional_damages_joined
    (json_stats : Monster) (attack : Attack) (hit : string)
    (phrases : list string) :
  alt_active (atk_alternateDamage attack) = false ->
  atk_additionalDamage attack <> [] ->
  damage_str (dmg_count (atk_damage attack)) (dmg_dice (atk_damage attack))
             (resolve_modifier json_stats (dmg_modifier (atk_damage attack)))
             (dmg_type (atk_damage attack)) = Ok hit ->
  mapM (fun damage =>
          damage_str (add_count damage) (add_dice damage) 0 (add_type damage))
       (atk_additionalDamage attack) = Ok phrases ->
  attack_description json_stats attack
  = Ok ("Hit: " ++ hit ++ " plus " ++ comma_and phrases ++ "."
        ++ (if nonempty (atk_description attack)
            then " " ++ atk_description attack else "")).
Proof.
  intros Halt Hne Hhit Hadd.
  unfold attack_description. rewrite Hhit, Halt. cbn [bind].
  destruct (atk_additionalDamage attack) as [| d damages] eqn:Eadd; [ congruence | ].
  cbn [truthy].
  rewrite (additional_phrases_decorate _ _ 1 phrases Hadd). cbn [bind].
  rewrite concat_decorate.
  - destruct (nonempty (atk_description attack)); normalize_append;
      rewrite ?append_empty_r; reflexivity.
  - intros ->. apply mapM_ok_length in Hadd. discriminate.
  - apply mapM_ok_length in Hadd. unfold len. rewrite Hadd. lia.
Qed.

Lemma additional_damages_joined_witness :
  alt_active (atk_alternateDamage venom_bite) = false
  /\ atk_additionalDamage venom_bite <> []
  /\ attack_description drake_plain venom_bite
     = Ok "Hit: 6 (1d6+3) piercing damage plus 7 (2d6+0) poison damage, 2 (1d4+0) acid damage, and 4 (1d8+0) fire damage. The target is poisoned.".
Proof.
  assert (Hne : atk_additionalDamage venom_bite <> []) by discriminate.
  split; [ reflexivity | split; [ exact Hne | ] ].
  exact (additional_damages_joined drake_plain venom_bite
           "6 (1d6+3) piercing damage"
           ["7 (2d6+0) poison damage"; "2 (1d4+0) acid damage";
            "4 (1d8+0) fire damage"]
           eq_refl Hne eq_refl eq_refl).
Defined.

(** ** Attacks that render *)

Lemma round_returns (neg : bool) (a e : Z) (sticky : bool) :
  0 <= a -> Z.log2 a + e <= 1022 ->
  exists x, round neg a e sticky = Ok x.
Proof.
  intros Ha Hlog. unfold round.
  set (shift := Z.max (Z.log2 a - 52) (-1074 - e)).
  destruct (Z.leb_spec shift 0) as [Hd | Hd].
  - replace ((0 <? a) && (1024 <=? Z.log2 a + e)) with false; [ eauto | ].
    symmetry. apply andb_false_iff. right. apply Z.leb_gt. lia.
  - set (hi := a / 2 ^ shift).
    set (a' := if (2 ^ (shift - 1) <? a mod 2 ^ shift)
                  || ((a mod 2 ^ shift =? 2 ^ (shift - 1)) && (sticky || Z.odd hi))
               then hi + 1 else hi).
    assert (Hpd : 0 < 2 ^ shift) by (apply pow2_pos; lia).
    assert (Hhi0 : 0 <= hi) by (apply Z.div_pos; lia).
    assert (Ha' : a' <= hi + 1) by (unfold a'; destruct (_ || _); lia).
    assert (Hlhi : Z.log2 hi <= Z.max 0 (Z.log2 a - shift)).
    { destruct (Z.eq_dec a 0) as [-> | Hnz].
      - unfold hi. rewrite Z.div_0_l by lia. simpl. lia.
      - unfold hi. rewrite <- Z.shiftr_div_pow2 by lia.
        rewrite Z.log2_shiftr by lia. lia. }
    assert (Hla' : Z.log2 a' <= Z.log2 hi + 1).
    { transitivity (Z.log2 (Z.succ hi)).
      - apply Z.log2_le_mono. lia.
      - pose proof (Z.log2_succ_le hi). lia. }
    replace ((0 <? a') && (1024 <=? Z.log2 a' + (e + shift))) with false; [ eauto | ].
    symmetry. apply andb_false_iff. right. apply Z.leb_gt.
    pose proof (Z.log2_nonneg a). lia.
Qed.

Lemma truediv_returns (a b : Z) :
  b <> 0 -> Z.log2 (Z.abs a) <= 1021 ->
  exists q, truediv a b = Ok q.
Proof.
  intros Hb Hla. unfold truediv.
  destruct (Z.eqb_spec b 0) as [ | _]; [ contradiction | ].
  destruct (Z.eqb_spec a 0) as [ | Ha]; [ eauto | ].
  set (p := Z.abs a) in *. set (q := Z.abs b).
  assert (Hp : 0 < p) by (unfold p; lia).
  assert (Hq : 0 < q) by (unfold q; lia).
  pose proof (Z.log2_nonneg p) as Hlp. pose proof (Z.log2_nonneg q) as Hlq.
  set (k := 55 + Z.log2 q - Z.log2 p).
  apply round_returns.
  - destruct (Z.leb_spec 0 k).
    + apply Z.div_pos; [ | lia ].
      apply Z.mul_nonneg_nonneg; [ lia | apply Z.lt_le_incl, pow2_pos; lia ].
    + apply Z.div_pos; [ lia | ].
      apply Z.mul_pos_pos; [ lia | apply pow2_pos; lia ].
  - destruct (Z.leb_spec 0 k) as [Hk | Hk].
    + assert (Hpk : 0 < 2 ^ k) by (apply pow2_pos; lia).
      assert (Hle : p * 2 ^ k / q <= p * 2 ^ k).
      { apply Z.div_le_upper_bound; [ lia | ]. nia. }
      apply Z.log2_le_mono in Hle. rewrite log2_scaled in Hle by lia. lia.
    + assert (Hpk : 0 < 2 ^ (- k)) by (apply pow2_pos; lia).
      assert (Hle : p / (q * 2 ^ (- k)) <= p / 2 ^ (- k)).
      { apply Z.div_le_compat_l; [ lia | ]. split; [ lia | nia ]. }
      apply Z.log2_le_mono in Hle.
      rewrite <- Z.shiftr_div_pow2, Z.log2_shiftr in Hle by lia. lia.
Qed.

Lemma mapM_all_ok {A B : Type} (f : A -> result B) (xs : list A) :
  Forall (fun x => exists y, f x = Ok y) xs -> exists ys, mapM f xs = Ok ys.
Proof.
  induction 1 as [| x xs [y Hy] _ [ys Hys]]; simpl; [ eauto | ].
  rewrite Hy, Hys. simpl. eauto.
Qed.

Section Attacks.

Variable num2words : Z -> string.
Variable float_str : float -> string.
Variable json_stats : Monster.

Lemma attack_line_zero_long (attack : Attack) :
  has_range_clause attack = true ->
  long (atk_range attack) = 0 ->
  attack_line num2words float_str json_stats attack = Error ZeroDivisionError.
Proof.
  unfold has_range_clause, attack_line. intros -> ->. reflexivity.
Qed.

Lemma attack_line_returns (attack : Attack) :
  (has_range_clause attack = true ->
   long (atk_range attack) <> 0
   /\ Z.log2 (Z.abs (standard (atk_range attack))) <= 1021) ->
  exists line, attack_line num2words float_str json_stats attack = Ok line.
Proof.
  unfold has_range_clause, attack_line. intros H.
  destruct (distance_in (atk_distance attack) ["BOTH"; "RANGED"]).
  - destruct (H eq_refl) as [Hlong Hstd].
    destruct (truediv_returns _ _ Hlong Hstd) as [q ->]. cbn [bind]. eauto.
  - cbn [bind]. eauto.
Qed.

Lemma damage_str_returns (count dice_type modifier : Z) (damage_type : string) :
  damage_in_range count dice_type ->
  exists text, damage_str count dice_type modifier damage_type = Ok text.
Proof.
  intros (Hd & Hc & Hcd). unfold damage_str.
  rewrite (calc_dice_exact count dice_type Hd Hc Hcd). cbn [bind]. eauto.
Qed.

Lemma attack_description_returns (attack : Attack) :
  attack_renders attack ->
  exists text, attack_description json_stats attack = Ok text.
Proof.
  intros (_ & Hprimary & Halt & Hadd). unfold attack_description.
  destruct (damage_str_returns _ _
              (resolve_modifier json_stats (dmg_modifier (atk_damage attack)))
              (dmg_type (atk_damage attack)) Hprimary) as [hit ->].
  cbn [bind].
  assert (Hmid : exists text,
             (if alt_active (atk_alternateDamage attack)
              then
                d <- damage_str (alt_count (atk_alternateDamage attack))
                       (alt_dice (atk_alternateDamage attack))
                       (resolve_modifier json_stats
                          (alt_modifier (atk_alternateDamage attack)))
                       (dmg_type (atk_damage attack)) ;;
                Ok ((("Hit: " ++ hit) ++ ", or ") ++ d ++ " "
                    ++ alt_condition (atk_alternateDamage attack))
              else Ok ("Hit: " ++ hit)) = Ok text).
  { destruct (alt_active (atk_alternateDamage attack)); [ | eauto ].
    destruct (damage_str_returns _ _
                (resolve_modifier json_stats
                   (alt_modifier (atk_alternateDamage attack)))
                (dmg_type (atk_damage attack)) (Halt eq_refl)) as [d ->].
    cbn [bind]. eauto. }
  destruct Hmid as [mid ->]. cbn [bind].
  destruct (truthy (atk_additionalDamage attack)); [ | cbn [bind]; eauto ].
  destruct (mapM_all_ok
              (additional_phrase (len (atk_additionalDamage attack)))
              (enumerate_from 1 (atk_additionalDamage attack))) as [parts ->].
  - generalize 1 (len (atk_additionalDamage attack)).
    induction Hadd as [| d ds Hd _ IH]; intros i n; cbn [enumerate_from];
      constructor; [ | apply IH ].
    unfold additional_phrase.
    destruct (damage_str_returns _ _ 0 (add_type d) Hd) as [text ->].
    cbn [bind]. eauto.
  - cbn [bind]. eauto.
Qed.

Lemma attack_entry_returns (attack : Attack) :
  attack_renders attack ->
  exists entry, attack_entry num2words float_str json_stats attack = Ok entry.
Proof.
  intros H. unfold attack_entry.
  destruct (attack_line_returns attack (proj1 H)) as [line ->].
  destruct (attack_description_returns attack H) as [text ->].
  cbn [bind]. eauto.
Qed.

End Attacks.

(** X23.  An attack with a range clause (RANGED or BOTH) and a long range of 0
    makes its entry raise [ZeroDivisionError], and [process_attacks] then
    returns no list. *)
Theorem ranged_attack_without_long_range_raises
    (num2words : Z -> string) (float_str : float -> string)
    (json_stats : Monster) (attack : Attack) :
  In attack (attacks json_stats) ->
  distance_in (atk_distance attack) ["BOTH"; "RANGED"] = true ->
  long (atk_range attack) = 0 ->
  attack_entry num2words float_str json_stats attack = Error ZeroDivisionError
  /\ exists e, process_attacks num2words float_str json_stats = Error e.
Proof.
  intros Hin Hranged Hlong.
  assert (He : attack_entry num2words float_str json_stats attack
               = Error ZeroDivisionError).
  { unfold attack_entry.
    now rewrite (attack_line_zero_long num2words float_str json_stats attack
                   Hranged Hlong). }
  split; [ exact He | ].
  destruct (mapM_error_first (attack_entry num2words float_str json_stats)
              (attacks json_stats) attack Hin (ex_intro _ _ He))
    as (a' & e' & _ & _ & Hm).
  exists e'. exact Hm.
Qed.

Lemma ranged_attack_without_long_range_raises_witness :
  In sling (attacks drake_slinger)
  /\ distance_in (atk_distance sling) ["BOTH"; "RANGED"] = true
  /\ long (atk_range sling) = 0
  /\ attack_entry num2words_en float_str_exact drake_slinger sling
     = Error ZeroDivisionError
  /\ parse_stats num2words_en float_str_exact drake_slinger
     = Error ZeroDivisionError.
Proof.
  assert (Hin : In sling (attacks drake_slinger)) by (right; left; reflexivity).
  split; [ exact Hin | split; [ reflexivity | split; [ reflexivity | ] ] ].
  split; [ | vm_compute; reflexivity ].
  exact (proj1 (ranged_attack_without_long_range_raises num2words_en
                  float_str_exact drake_slinger sling Hin eq_refl eq_refl)).
Defined.

Lemma mapM_trait_entry_returns (json_stats : Monster) (ts : list Trait) :
  Forall (fun t => lu_count (trait_limitedUse t) = 0) ts ->
  exists entries, mapM (trait_entry json_stats) ts = Ok entries.
Proof.
  intros H. apply mapM_all_ok.
  eapply Forall_impl; [ | exact H ].
  intros t Ht. rewrite (trait_entry_plain json_stats t Ht). eauto.
Qed.

(** X24.  The conversion returns a statblock when every integer that it
    formats or puts in words is within the limits of the runtime, the hit
    points are in the exact range, no trait has a limited-use count, every
    reference of the multiattack groups and of the legendary actions has an
    entry, and every attack renders (long range not 0 when it has a range
    clause, dice in range). *)
Theorem conversion_returns
    (num2words : Z -> string) (float_str : float -> string)
    (json_stats : Monster) :
  within_limits json_stats = true ->
  exact_range (hd_type (HP json_stats)) (HD (HP json_stats)) (stats json_stats CON) ->
  Forall (fun t => lu_count (trait_limitedUse t) = 0) (traits json_stats) ->
  (forall id_, In id_ (multiattack_refs json_stats ++ legendary_refs json_stats) ->
               exists item, get_action id_ json_stats = Ok item) ->
  Forall attack_renders (attacks json_stats) ->
  exists out, parse_stats num2words float_str json_stats = Ok out.
Proof.
  intros _ Hhp Htraits Hrefs Hattacks.
  assert (Hres : forall id_,
             In id_ (multiattack_refs json_stats ++ legendary_refs json_stats) ->
             ~ unresolved json_stats id_).
  { intros id_ Hin Hun. destruct (Hrefs id_ Hin) as [item Hitem].
    apply get_action_unresolved in Hun. congruence. }
  pose proof (hit_points_exact json_stats Hhp) as Ehp.
  destruct (mapM_trait_entry_returns json_stats _ Htraits) as [ts Ets].
  destruct (process_multiattack num2words json_stats) as [ma | e] eqn:Ema.
  2: { destruct (process_multiattack_error num2words json_stats e Ema)
         as (id_ & Hin & Hun & _).
       exfalso. apply (Hres id_); [ apply in_or_app; now left | exact Hun ]. }
  destruct (process_legendary_actions json_stats) as [leg | e] eqn:Eleg.
  2: { destruct (process_legendary_actions_error json_stats e Eleg)
         as (id_ & Hin & Hun & _).
       exfalso. apply (Hres id_); [ apply in_or_app; now right | exact Hun ]. }
  destruct (mapM_all_ok (attack_entry num2words float_str json_stats)
              (attacks json_stats)) as [atks Eatk].
  { eapply Forall_impl; [ | exact Hattacks ].
    intros a Ha. now apply attack_entry_returns. }
  unfold parse_stats, process_attacks.
  rewrite Ehp, Ets, Ema, Eatk, Eleg. cbn [bind].
  destruct (nonempty ma); cbn [bind]; eauto.
Qed.

Lemma in_range_small (count dice_type : Z) :
  0 <= count < 1000 -> 0 <= dice_type < 1000 -> damage_in_range count dice_type.
Proof.
  intros Hc Hd. unfold damage_in_range.
  assert (H53 : 2 ^ 20 <= 2 ^ 53) by (apply Z.pow_le_mono_r; lia).
  change (2 ^ 20) with 1048576 in H53.
  repeat split; rewrite Z.abs_eq by nia; nia.
Qed.

Lemma conversion_returns_witness :
  within_limits drake_lord = true
  /\ exact_range (hd_type (HP drake_lord)) (HD (HP drake_lord)) (stats drake_lord CON)
  /\ Forall (fun t => lu_count (trait_limitedUse t) = 0) (traits drake_lord)
  /\ (multiattack_refs drake_lord ++ legendary_refs drake_lord)%list
     = ["a1"; "a1"; "a2"; "b1"; "b3"; "a1"]
  /\ Forall attack_renders (attacks drake_lord)
  /\ exists out, parse_stats num2words_en float_str_exact drake_lord = Ok out.
Proof.
  assert (Hlim : within_limits drake_lord = true) by (vm_compute; reflexivity).
  assert (Hhp : exact_range (hd_type (HP drake_lord)) (HD (HP drake_lord))
                            (stats drake_lord CON))
    by (repeat split; reflexivity).
  assert (Htraits : Forall (fun t => lu_count (trait_limitedUse t) = 0)
                           (traits drake_lord))
    by (repeat constructor).
  assert (Hrefs : forall id_,
             In id_ (multiattack_refs drake_lord ++ legendary_refs drake_lord) ->
             exists item, get_action id_ drake_lord = Ok item).
  { intros id_ Hin. cbn in Hin.
    repeat (destruct Hin as [<- | Hin]; [ eexists; reflexivity | ]).
    contradiction. }
  assert (Hattacks : Forall attack_renders (attacks drake_lord)).
  { repeat constructor; try discriminate; apply in_range_small; simpl; lia. }
  split; [ exact Hlim | split; [ exact Hhp | split; [ exact Htraits | ] ] ].
  split; [ reflexivity | split; [ exact Hattacks | ] ].
  exact (conversion_returns num2words_en float_str_exact drake_lord
           Hlim Hhp Htraits Hrefs Hattacks).
Defined.

(** ** Actions *)

(** X25.  The entry of an action depends on its name, its description and
    its limited-use count only: the rate of the limited use, the id and the
    flags are not read, and the suffix is always "/day". *)
Theorem process_action_ignores_rate (json_stats : Monster) (a b : Action) :
  act_name a = act_name b ->
  act_description a = act_description b ->
  option_map lu_count (act_limitedUse a) = option_map lu_count (act_limitedUse b) ->
  process_action (ActionItem a) json_stats = process_action (ActionItem b) json_stats.
Proof.
  intros Hname Hdesc Hcount. unfold process_action.
  cbn [item_name item_description item_limitedUse].
  rewrite Hname, Hdesc.
  destruct (act_limitedUse a) as [la | ], (act_limitedUse b) as [lb | ];
    try discriminate; [ | reflexivity ].
  injection Hcount as ->. reflexivity.
Qed.

Lemma process_action_ignores_rate_witness :
  act_name (breath "SHORT REST") = act_name (breath "DAY")
  /\ act_description (breath "SHORT REST") = act_description (breath "DAY")
  /\ option_map lu_count (act_limitedUse (breath "SHORT REST"))
     = option_map lu_count (act_limitedUse (breath "DAY"))
  /\ entry_name (process_action (ActionItem (breath "SHORT REST")) drake_busy)
     = "Fire Breath (2/day)"
  /\ process_action (ActionItem (breath "SHORT REST")) drake_busy
     = process_action (ActionItem (breath "DAY")) drake_busy.
Proof.
  do 4 (split; [ reflexivity | ]).
  exact (process_action_ignores_rate drake_busy (breath "SHORT REST") (breath "DAY")
           eq_refl eq_refl eq_refl).
Defined.
